(** * Dynamic-Utils: the helper functions of [src/index.js], embedded and verified

    The library is a set of independent JavaScript helpers.  Each exported
    function is translated below into a Rocq function of the same name, over
    a small model of JavaScript values, and the properties its documentation
    states are proved (or refuted on a concrete input).

    Layout: values and conversions; exceptions; ordinary objects used as
    lookup tables; the functions, in the order of the source file; the
    documented behaviour, written as functions and predicates; then the
    lemmas and theorems, function by function. *)

From Stdlib Require Import List String Ascii Bool ZArith NArith QArith Qround Lia.
From Stdlib Require Import Decimal DecimalString.
From Stdlib Require DecimalFacts DecimalN.
Import ListNotations.
Local Open Scope list_scope.
Local Open Scope string_scope.
Set Warnings "-register-all".

(** ** JavaScript values *)

(** Numbers.  A finite number is kept at an integer value ([Num z] stands for
    the double that equals [z]; [+0] and [-0] are both [Num 0], which every
    comparison used in this library identifies).  [NaN] is kept apart: it is
    the one number that is not strictly equal to itself. *)
Inductive number :=
| NaN
| Num (z : Z).

(** Primitive values. *)
Inductive prim :=
| Undefined
| Null
| Boolean (b : bool)
| Number (n : number)
| Str (s : string).

(** Values as trees: a primitive, an array, or a plain object given by its
    own enumerable properties, listed in the order [Object.entries]
    enumerates them. *)
Inductive jsval :=
| Prim (p : prim)
| Arr (items : list jsval)
| Obj (props : list (string * jsval)).

Definition undefined : jsval := Prim Undefined.
Definition null : jsval := Prim Null.
Definition num (z : Z) : jsval := Prim (Number (Num z)).
Definition str (s : string) : jsval := Prim (Str s).
Definition boolean (b : bool) : jsval := Prim (Boolean b).

(** Induction over [jsval] that reaches the elements of arrays and the
    values of properties. *)
Section JsvalInduction.
Variable P : jsval -> Prop.
Hypothesis HPrim : forall p, P (Prim p).
Hypothesis HArr : forall items, Forall P items -> P (Arr items).
Hypothesis HObj : forall props, Forall (fun kv => P (snd kv)) props -> P (Obj props).

Fixpoint jsval_nested_ind (v : jsval) : P v :=
  match v with
  | Prim p => HPrim p
  | Arr items =>
      HArr items
        ((fix all (l : list jsval) : Forall P l :=
            match l with
            | [] => Forall_nil P
            | x :: r => Forall_cons x (jsval_nested_ind x) (all r)
            end) items)
  | Obj props =>
      HObj props
        ((fix all (l : list (string * jsval)) : Forall (fun kv => P (snd kv)) l :=
            match l with
            | [] => Forall_nil _
            | kv :: r => Forall_cons kv (jsval_nested_ind (snd kv)) (all r)
            end) props)
  end.
End JsvalInduction.

(** [typeof]. *)
Definition typeof (v : jsval) : string :=
  match v with
  | Prim Undefined => "undefined"
  | Prim Null => "object"
  | Prim (Boolean _) => "boolean"
  | Prim (Number _) => "number"
  | Prim (Str _) => "string"
  | Arr _ => "object"
  | Obj _ => "object"
  end.

Definition isArray (v : jsval) : bool :=
  match v with Arr _ => true | _ => false end.

(** ToBoolean: the falsy values are [undefined], [null], [false], [0],
    [NaN] and the empty string. *)
Definition truthy (v : jsval) : bool :=
  match v with
  | Prim Undefined => false
  | Prim Null => false
  | Prim (Boolean b) => b
  | Prim (Number NaN) => false
  | Prim (Number (Num z)) => negb (z =? 0)%Z
  | Prim (Str s) => negb (s =? "")
  | Arr _ => true
  | Obj _ => true
  end.

(** ToString.  An integer prints as its decimal numeral (exact for the
    doubles below 1e21 in magnitude). *)
Definition number_to_string (n : number) : string :=
  match n with
  | NaN => "NaN"
  | Num z => NilZero.string_of_int (Z.to_int z)
  end.

Definition prim_to_string (p : prim) : string :=
  match p with
  | Undefined => "undefined"
  | Null => "null"
  | Boolean true => "true"
  | Boolean false => "false"
  | Number n => number_to_string n
  | Str s => s
  end.

(** Strict equality [===] and SameValueZero (used by [includes]) on
    primitives: they differ on [NaN] only. *)
Definition number_eqb (a b : number) : bool :=
  match a, b with
  | Num x, Num y => (x =? y)%Z
  | _, _ => false
  end.

Definition prim_strict_equals (a b : prim) : bool :=
  match a, b with
  | Undefined, Undefined => true
  | Null, Null => true
  | Boolean x, Boolean y => Bool.eqb x y
  | Number x, Number y => number_eqb x y
  | Str x, Str y => (x =? y)
  | _, _ => false
  end.

Definition prim_same_value_zero (a b : prim) : bool :=
  match a, b with
  | Number NaN, Number NaN => true
  | _, _ => prim_strict_equals a b
  end.

(** Multiplication of numbers: [NaN] absorbs. *)
Definition mul (a b : number) : number :=
  match a, b with
  | Num x, Num y => Num (x * y)
  | _, _ => NaN
  end.

(** ** Exceptions and completions *)

(** [Error message] is [new Error(message)], raised by the library itself;
    [TypeError] is raised by the runtime (its message depends on the engine
    and is not kept). *)
Inductive exn :=
| Error (message : string)
| TypeError.

Inductive completion (A : Type) :=
| Normal (a : A)
| Throw (e : exn).
Arguments Normal {A} a.
Arguments Throw {A} e.

Definition bind {A B} (c : completion A) (k : A -> completion B) : completion B :=
  match c with
  | Normal a => k a
  | Throw e => Throw e
  end.

Notation "x <- c ;; k" := (bind c (fun x => k))
  (at level 61, c at next level, right associativity).

(** ** Conversion to a string and to a property key *)

(** ToString on values.  An array prints as [join(",")] of its elements,
    where [null] and [undefined] elements print as the empty string.  A plain
    object prints as ["[object Object]"], through the [toString] it inherits;
    when it has an own property named [toString] (which holds data, not a
    function), neither that property nor the inherited [valueOf] yields a
    primitive and the conversion raises a [TypeError]. *)
Fixpoint to_string (v : jsval) : completion string :=
  match v with
  | Prim p => Normal (prim_to_string p)
  | Arr items =>
      (fix join (l : list jsval) : completion string :=
         match l with
         | [] => Normal ""
         | x :: r =>
             sx <- match x with
                   | Prim Undefined => Normal ""
                   | Prim Null => Normal ""
                   | _ => to_string x
                   end ;;
             match r with
             | [] => Normal sx
             | _ :: _ => sr <- join r ;; Normal (sx ++ "," ++ sr)
             end
         end) items
  | Obj props =>
      if existsb (fun kv => fst kv =? "toString") props
      then Throw TypeError
      else Normal "[object Object]"
  end.

(** ToPropertyKey on the values modelled here (there are no symbols). *)
Definition to_property_key (v : jsval) : completion string := to_string v.

(** ** Property keys

    A property key is a string. *)

(** The own properties of an object are listed in the order
    [Object.entries] enumerates them: the keys that are array indices
    (canonical numerals below [2^32 - 1]) in ascending order, then the other
    keys in creation order. *)
Definition array_index (k : string) : option N :=
  match NilZero.uint_of_string k with
  | Some u =>
      let n := N.of_uint u in
      if (NilZero.string_of_uint (N.to_uint n) =? k) && (n <? 2 ^ 32 - 1)%N
      then Some n
      else None
  | None => None
  end.

(** Whether a new key [k] is enumerated before the existing key [k']. *)
Definition enumerated_before (k k' : string) : bool :=
  match array_index k, array_index k' with
  | Some n, Some m => (n <? m)%N
  | Some _, None => true
  | None, _ => false
  end.

(** ** Ordinary objects used as lookup tables

    [{}] creates an object with no own property whose prototype is
    [Object.prototype].  The helpers below store into such an object with
    [acc[key] = v] and, for [_case], read it back with [switchLike[key]]. *)
Section OrdinaryObject.
Variable V : Type.

Inductive prototype :=
| ObjectPrototype
| NullPrototype
| ValuePrototype (p : V).

Record object := mkObject { own : list (string * V); proto : prototype }.

Definition empty_object : object := mkObject [] ObjectPrototype.

Fixpoint own_get (k : string) (l : list (string * V)) : option V :=
  match l with
  | [] => None
  | (k', v) :: r => if k' =? k then Some v else own_get k r
  end.

(** Creating an own property, at its place in the enumeration. *)
Fixpoint own_create (k : string) (v : V) (l : list (string * V)) : list (string * V) :=
  match l with
  | [] => [(k, v)]
  | (k', v') :: r =>
      if enumerated_before k k' then (k, v) :: l else (k', v') :: own_create k v r
  end.

Fixpoint own_update (k : string) (v : V) (l : list (string * V)) : list (string * V) :=
  match l with
  | [] => []
  | (k', v') :: r => if k' =? k then (k', v) :: r else (k', v') :: own_update k v r
  end.

(** Writing an own property: in place when it exists, else created. *)
Definition own_put (k : string) (v : V) (l : list (string * V)) : list (string * V) :=
  match own_get k l with
  | Some _ => own_update k v l
  | None => own_create k v l
  end.

(** What the [__proto__] setter of [Object.prototype] does with the value
    assigned: an object becomes the prototype, [null] removes the
    prototype, another primitive is ignored ([None]). *)
Variable as_prototype : V -> option prototype.
(** Whether a value that sits in the prototype chain has an own property
    named [__proto__], hiding the accessor of [Object.prototype]. *)
Variable shadows_accessor : V -> bool.

Definition accessor_in_chain (o : object) : bool :=
  match proto o with
  | ObjectPrototype => true
  | NullPrototype => false
  | ValuePrototype p => negb (shadows_accessor p)
  end.

(** [o[k] = v].  Every inherited property of the objects met here is a
    writable data property, so the assignment writes an own property of
    [o]; the exception is the key [__proto__], an accessor: while [o] has
    no own property of that name and the accessor is still inherited, the
    assignment runs the setter and no own property is written. *)
Definition obj_set (o : object) (k : string) (v : V) : object :=
  match own_get k (own o) with
  | None =>
      if (k =? "__proto__") && accessor_in_chain o
      then match as_prototype v with
           | Some p => mkObject (own o) p
           | None => o
           end
      else mkObject (own_put k v (own o)) (proto o)
  | Some _ => mkObject (own_put k v (own o)) (proto o)
  end.
End OrdinaryObject.

Arguments ObjectPrototype {V}.
Arguments NullPrototype {V}.
Arguments ValuePrototype {V} p.
Arguments mkObject {V} own proto.
Arguments own {V} o.
Arguments proto {V} o.
Arguments empty_object {V}.
Arguments own_get {V} k l.
Arguments own_put {V} k v l.
Arguments own_create {V} k v l.
Arguments own_update {V} k v l.
Arguments obj_set {V} as_prototype shadows_accessor o k v.

(** The members of [Object.prototype] reachable by name, and what calling
    one of them as a plain function does ([this] is [undefined], no
    argument): [constructor] is [Object] and returns a new empty object,
    [toString] returns ["[object Undefined]"], [isPrototypeOf] returns
    [false], the others start by converting [this] to an object, which
    raises a [TypeError]. *)
Definition object_prototype_call (name : string) : option (completion jsval) :=
  if name =? "constructor" then Some (Normal (Obj []))
  else if name =? "toString" then Some (Normal (str "[object Undefined]"))
  else if name =? "isPrototypeOf" then Some (Normal (boolean false))
  else if existsb (String.eqb name)
            ["hasOwnProperty"; "propertyIsEnumerable"; "toLocaleString"; "valueOf";
             "__defineGetter__"; "__defineSetter__"; "__lookupGetter__"; "__lookupSetter__"]
  then Some (Throw TypeError)
  else None.

(** A name is inherited from [Object.prototype] when it is one of the
    methods above or the accessor [__proto__]. *)
Definition inherited (name : string) : bool :=
  match object_prototype_call name with
  | Some _ => true
  | None => name =? "__proto__"
  end.

(** ** [_case]: the dynamic switch *)

Section Case.
(** The state the handlers act on (the variables they close over). *)
Variable St : Type.

(** A function taking no argument: called in a state, it completes and
    leaves a state. *)
Definition func : Type := St -> completion jsval * St.

(** The arguments after [variable], as the documentation types them: a
    couple [[caseKey, caseFunc]] or a bare function.  Case keys are
    primitive values. *)
Inductive arg :=
| Couple (caseKey : prim) (caseFunc : func)
| Bare (f : func).

(** [couples.pop()]: the arguments but the last, and the last; [None] on
    an empty list (where [pop] returns [undefined]). *)
Fixpoint pop (couples : list arg) : option (list arg * arg) :=
  match couples with
  | [] => None
  | [a] => Some ([], a)
  | a :: r =>
      match pop r with
      | Some (r', z) => Some (a :: r', z)
      | None => None
      end
  end.

(** The lookup object [switchLike]: handlers under string keys.  A handler
    assigned to [__proto__] becomes the prototype of the table. *)
Definition table : Type := object func.

Definition table_set (acc : table) (caseKey : string) (caseFunc : func) : table :=
  obj_set (fun f => Some (ValuePrototype f)) (fun _ => false) acc caseKey caseFunc.

(** One step of [couples.reduce((acc, [caseKey, caseFunc]) => ..., {})].
    Destructuring a bare function as an array raises a [TypeError]. *)
Definition reduce_step (acc : table) (a : arg) : completion table :=
  match a with
  | Couple caseKey caseFunc => Normal (table_set acc (prim_to_string caseKey) caseFunc)
  | Bare _ => Throw TypeError
  end.

Fixpoint reduce (acc : table) (couples : list arg) : completion table :=
  match couples with
  | [] => Normal acc
  | a :: r => acc' <- reduce_step acc a ;; reduce acc' r
  end.

(** What [switchLike[key]] yields, as far as the [if (caseFunc)] and the
    call that follow can tell. *)
Inductive slot :=
| Callable (f : func)
| NotCallable
| Missing.

(** Reading through [Object.prototype]: a method is a callable that does
    not touch the state; [__proto__] reads the prototype itself, an object
    that is truthy and cannot be called; any other name is [undefined]. *)
Definition object_prototype_get (key : string) : slot :=
  match object_prototype_call key with
  | Some c => Callable (fun st => (c, st))
  | None => if key =? "__proto__" then NotCallable else Missing
  end.

(** [switchLike[key]]: the own property, else the prototype chain.  When a
    handler has been installed as prototype, [__proto__] reads that handler;
    any other name would be looked up among the properties of the handler
    and of [Function.prototype], which this model does not describe: the
    result is [None]. *)
Definition table_get (switchLike : table) (key : string) : option slot :=
  match own_get key (own switchLike) with
  | Some f => Some (Callable f)
  | None =>
      match proto switchLike with
      | ObjectPrototype => Some (object_prototype_get key)
      | NullPrototype => Some Missing
      | ValuePrototype f => if key =? "__proto__" then Some (Callable f) else None
      end
  end.

(** The default synthesised when the last argument is not a function. *)
Definition no_case_found (variable : prim) : func :=
  fun st => (Throw (Error ("No case found for key: " ++ prim_to_string variable)), st).

(** The part of [_case] that follows the choice of the default: build the
    table, look the subject up, call.  The result is [None] only where
    [table_get] is. *)
Definition dispatch (variable : prim) (couples : list arg) (defaultFunc : func) (st : St)
  : option (completion jsval * St) :=
  match reduce empty_object couples with
  | Throw e => Some (Throw e, st)
  | Normal switchLike =>
      match table_get switchLike (prim_to_string variable) with
      | None => None
      | Some (Callable caseFunc) => Some (caseFunc st)
      | Some NotCallable => Some (Throw TypeError, st)
      | Some Missing => Some (defaultFunc st)
      end
  end.

(** [_case(variable, ...couples)].  The [try] with its rethrowing [catch]
    changes nothing and is left out. *)
Definition _case (variable : prim) (couples : list arg) (st : St)
  : option (completion jsval * St) :=
  match pop couples with
  | None =>
      (* [pop()] gave [undefined], which is pushed back: [reduce] then fails to
         destructure it *)
      Some (Throw TypeError, st)
  | Some (rest, Bare f) => dispatch variable rest f st
  | Some (rest, Couple k h) =>
      dispatch variable (rest ++ [Couple k h])%list (no_case_found variable) st
  end.
End Case.

Arguments Couple {St} caseKey caseFunc.
Arguments Bare {St} f.
Arguments _case {St} variable couples st.
Arguments dispatch {St} variable couples defaultFunc st.
Arguments no_case_found {St} variable.
Arguments pop {St} couples.
Arguments table_set {St} acc caseKey caseFunc.
Arguments reduce_step {St} acc a.
Arguments reduce {St} acc couples.
Arguments Callable {St} f.
Arguments NotCallable {St}.
Arguments Missing {St}.
Arguments object_prototype_get {St} key.
Arguments table_get {St} switchLike key.

(** ** [_wait] *)

(** The promise [_wait] returns, as it stands when [_wait] returns: rejected
    because the executor threw, or pending with [resolve] handed to
    [setTimeout] under the delay [timeInMs] (the timer calls [resolve] with
    no argument, so the promise is then fulfilled with [undefined]). *)
Inductive promise :=
| Rejected (reason : exn)
| ResolvesAfter (timeInMs : prim).

(** The handlers close over [timeInMs], which is the state here; an arrow
    with an expression body returns the value assigned, the default (a block
    body) returns [undefined]. *)
Definition assign (n : number) : func prim :=
  fun _ => (Normal (Prim (Number n)), Number n).

(** [_wait(value, unit)].  The result is never [None] (see [wait_total]). *)
Definition _wait (value : number) (unit : string) : option promise :=
  match _case (Str unit)
          [ Couple (Str "ms") (assign value);
            Couple (Str "s") (assign (mul value (Num 1000)));
            Couple (Str "m") (assign (mul (mul value (Num 1000)) (Num 60)));
            Couple (Str "h") (assign (mul (mul (mul value (Num 1000)) (Num 60)) (Num 60)));
            Bare (fun _ => (Normal undefined, Number value)) ]
          Undefined with
  | None => None
  | Some (Throw e, _) => Some (Rejected e)
  | Some (Normal _, timeInMs) => Some (ResolvesAfter timeInMs)
  end.

(** ** [_removeDuplicates] *)

(** An array element as [indexOf] and [includes] see it: a primitive, or a
    reference to an object (array, object or function), which is equal to
    itself only. *)
Inductive item :=
| Val (p : prim)
| Ref (loc : nat).

Definition strict_equals (a b : item) : bool :=
  match a, b with
  | Val p, Val q => prim_strict_equals p q
  | Ref x, Ref y => Nat.eqb x y
  | _, _ => false
  end.

Definition same_value_zero (a b : item) : bool :=
  match a, b with
  | Val p, Val q => prim_same_value_zero p q
  | Ref x, Ref y => Nat.eqb x y
  | _, _ => false
  end.

(** [self.indexOf(value)]: the first index whose element is strictly equal
    to [value], or [-1]. *)
Fixpoint indexOf_from (i : Z) (self : list item) (value : item) : Z :=
  match self with
  | [] => (-1)%Z
  | x :: r => if strict_equals x value then i else indexOf_from (i + 1)%Z r value
  end.

Definition indexOf (self : list item) (value : item) : Z := indexOf_from 0%Z self value.

(** [except.includes(value)] compares with SameValueZero. *)
Definition includes (except : list item) (value : item) : bool :=
  existsb (fun x => same_value_zero x value) except.

(** [array.filter((value, index, self) => ...)]. *)
Fixpoint filter_from {A} (f : A -> Z -> bool) (index : Z) (l : list A) : list A :=
  match l with
  | [] => []
  | value :: r =>
      if f value index
      then value :: filter_from f (index + 1)%Z r
      else filter_from f (index + 1)%Z r
  end.

(** [_removeDuplicates(array, except = [])]; an absent [except] is [None]. *)
Definition _removeDuplicates (array : list item) (except : option (list item)) : list item :=
  let except := match except with Some e => e | None => [] end in
  filter_from
    (fun value index => (indexOf array value =? index)%Z || includes except value)
    0%Z array.

(** ** [_ObjectToArray] *)

(** The inner [transform].  [typeof null] is ['object'], so a [null] item
    reaches [Object.entries], which raises a [TypeError]. *)
Fixpoint transform (item : jsval) : completion jsval :=
  match item with
  | Arr _ => Normal item
  | Obj props =>
      pairs <- (fix map_entries (l : list (string * jsval)) : completion (list jsval) :=
                  match l with
                  | [] => Normal []
                  | (key, val) :: r =>
                      val' <- transform val ;;
                      r' <- map_entries r ;;
                      Normal (Arr [str key; val'] :: r')
                  end) props ;;
      Normal (Arr pairs)
  | Prim Null => Throw TypeError
  | Prim _ => Normal item
  end.

Definition _ObjectToArray (obj : jsval) : completion jsval :=
  if negb (typeof obj =? "object") || match obj with Prim Null => true | _ => false end
  then Throw (Error "Input is not an object")
  else transform obj.

(** ** [_ArrayToObject] *)

(** The accumulator [acc] holds values; assigning an array or an object to
    [__proto__] makes it the prototype, assigning [null] removes the
    prototype, assigning another primitive does nothing. *)
Definition value_as_prototype (v : jsval) : option (prototype jsval) :=
  match v with
  | Arr _ => Some (ValuePrototype v)
  | Obj _ => Some (ValuePrototype v)
  | Prim Null => Some NullPrototype
  | Prim _ => None
  end.

Definition value_shadows_accessor (v : jsval) : bool :=
  match v with
  | Obj props => existsb (fun kv => fst kv =? "__proto__") props
  | _ => false
  end.

Definition value_set (acc : object jsval) (key : string) (v : jsval) : object jsval :=
  obj_set value_as_prototype value_shadows_accessor acc key v.

(** The body of the reducer, for an entry [item] that is an array.  The
    key is converted to a property key by the assignment [acc[key] = ...]. *)
Definition entry_step (keyIndex : Z) (acc : object jsval) (item : list jsval)
  : completion (object jsval) :=
  if (keyIndex <? 0)%Z || (keyIndex >=? Z.of_nat (List.length item))%Z
  then Throw (Error "Key index is out of bounds")
  else
    let key := nth (Z.to_nat keyIndex) item undefined in
    let values :=
      (firstn (Z.to_nat keyIndex) item ++ skipn (Z.to_nat (keyIndex + 1)) item)%list in
    let v :=
      if (1 <? List.length values)%nat then Arr values
      else let v0 := nth 0 values undefined in
           if truthy v0 then v0 else null in
    k <- to_property_key key ;;
    Normal (value_set acc k v).

Fixpoint reduce_entries (keyIndex : Z) (acc : object jsval) (array : list (list jsval))
  : completion (object jsval) :=
  match array with
  | [] => Normal acc
  | item :: r => acc' <- entry_step keyIndex acc item ;; reduce_entries keyIndex acc' r
  end.

(** [_ArrayToObject(array, keyIndex = 0)] on an array of arrays. *)
Definition _ArrayToObject (array : list (list jsval)) (keyIndex : Z)
  : completion (object jsval) :=
  reduce_entries keyIndex empty_object array.

(** The array of arrays a value is, when it is one. *)
Definition as_entries (v : jsval) : option (list (list jsval)) :=
  match v with
  | Arr rows =>
      (fix all (l : list jsval) : option (list (list jsval)) :=
         match l with
         | [] => Some []
         | Arr row :: r =>
             match all r with Some rs => Some (row :: rs) | None => None end
         | _ :: _ => None
         end) rows
  | _ => None
  end.

(** [_ArrayToObject(_ObjectToArray(m), 0)]; [None] when the intermediate
    value is not an array of arrays. *)
Definition roundtrip (m : jsval) : option (completion (object jsval)) :=
  match _ObjectToArray m with
  | Throw e => Some (Throw e)
  | Normal a =>
      match as_entries a with
      | Some rows => Some (_ArrayToObject rows 0%Z)
      | None => None
      end
  end.

(** ** [_filterArray] and [_insertAt] *)

(** Modelled from the spec: the body of [_filterArray] is not among the
    source files (its tests and the README entry are).  The spec: a new
    sequence with only the elements, recursively through nested sequences,
    whose runtime type matches one of the tags; nesting and order are kept,
    and a nested sequence is kept even when nothing in it matches.
    [filterElement] is what becomes of one element: nothing, itself, or, for
    a nested sequence, its filtered self. *)
Fixpoint filterElement (types : list string) (element : jsval) : list jsval :=
  match element with
  | Arr nested => [Arr (flat_map (filterElement types) nested)]
  | _ => if existsb (String.eqb (typeof element)) types then [element] else []
  end.

(** Modelled from the spec: [_filterArray(array, ...types)], whose body is
    not among the source files; see [filterElement]. *)
Definition _filterArray (array : list jsval) (types : list string) : list jsval :=
  flat_map (filterElement types) array.

(** Modelled from the spec: the body of [_insertAt] is not among the
    source files (its tests and the README example are).  The spec:
    an index outside [[0, array.length]] leaves the array as it is; an index
    inside it inserts the items at the floor of the index.  The index is a
    rational number, since the indexes of interest have a fractional
    part. *)
Definition _insertAt (array : list jsval) (index : Q) (items : list jsval) : list jsval :=
  if Qle_bool 0 index && Qle_bool index (inject_Z (Z.of_nat (List.length array)))
  then
    let position := Z.to_nat (Qfloor index) in
    (firstn position array ++ items ++ skipn position array)%list
  else array.

(** ** [_forEachInObject] *)

(** The decimal numeral of an index. *)
Definition index_to_string (i : nat) : string :=
  NilZero.string_of_uint (N.to_uint (N.of_nat i)).

Fixpoint indices_from (i : nat) {A : Type} (l : list A) : list string :=
  match l with
  | [] => []
  | _ :: r => index_to_string i :: indices_from (S i) r
  end.

(** The characters of a string, one string each (a character of the model
    stands for one code unit). *)
Fixpoint characters (s : string) : list jsval :=
  match s with
  | EmptyString => []
  | String c r => str (String c EmptyString) :: characters r
  end.

(** [Object.keys(obj)]: the own enumerable keys.  [undefined] and [null]
    do not convert to an object; an array and a string have their indices
    for keys; a number or a boolean has none. *)
Definition object_keys (obj : jsval) : completion (list string) :=
  match obj with
  | Prim Undefined => Throw TypeError
  | Prim Null => Throw TypeError
  | Prim (Str s) => Normal (indices_from 0 (characters s))
  | Prim _ => Normal []
  | Arr items => Normal (indices_from 0 items)
  | Obj props => Normal (map fst props)
  end.

(** [obj[key]] for a key that [Object.keys(obj)] lists: the own property
    of that name. *)
Definition own_value (obj : jsval) (key : string) : jsval :=
  match obj with
  | Obj props => match own_get key props with Some v => v | None => undefined end
  | Arr items =>
      match array_index key with
      | Some n => nth (N.to_nat n) items undefined
      | None => undefined
      end
  | Prim (Str s) =>
      match array_index key with
      | Some n => nth (N.to_nat n) (characters s) undefined
      | None => undefined
      end
  | Prim _ => undefined
  end.

Section ForEach.
(** The state the callback acts on; [obj] itself is a value and is not part
    of it. *)
Variable St : Type.

(** [Array.prototype.forEach] over the keys: the calls are made in order,
    their results are dropped, and the first exception ends the loop. *)
Fixpoint forEach (f : string -> St -> completion jsval * St) (keys : list string) (st : St)
  : completion unit * St :=
  match keys with
  | [] => (Normal tt, st)
  | key :: r =>
      match f key st with
      | (Normal _, st') => forEach f r st'
      | (Throw e, st') => (Throw e, st')
      end
  end.

(** [_forEachInObject(obj, callback)]. *)
Definition _forEachInObject (obj : jsval)
           (callback : jsval -> string -> St -> completion jsval * St) (st : St)
  : completion unit * St :=
  match object_keys obj with
  | Throw e => (Throw e, st)
  | Normal keys => forEach (fun key => callback (own_value obj key) key) keys st
  end.
End ForEach.

Arguments forEach {St} f keys st.
Arguments _forEachInObject {St} obj callback st.

(** ** [_createShellCommands] *)

(** The object [funcs]: under each name, the function that runs a command;
    the function is told by the command it closes over. *)
Definition funcs_set (funcs : object jsval) (name : string) (cmd : jsval) : object jsval :=
  obj_set (fun f => Some (ValuePrototype f)) (fun _ => false) funcs name cmd.

(** The body of [commands.forEach(commandPair => ...)], for a [commandPair]
    that is an object, given by its properties.  [Object.entries(...)[0]] is
    the first property; on an object without properties it is [undefined],
    which cannot be destructured. *)
Definition command_step (funcs : object jsval) (commandPair : list (string * jsval))
  : completion (object jsval) :=
  match commandPair with
  | [] => Throw TypeError
  | (name, cmd) :: _ => Normal (funcs_set funcs name cmd)
  end.

Fixpoint commands_forEach (funcs : object jsval) (commands : list (list (string * jsval)))
  : completion (object jsval) :=
  match commands with
  | [] => Normal funcs
  | commandPair :: r => funcs' <- command_step funcs commandPair ;; commands_forEach funcs' r
  end.

(** [_createShellCommands(commands)]: no command is run here, only when a
    function of the result is called. *)
Definition _createShellCommands (commands : list (list (string * jsval)))
  : completion (object jsval) :=
  commands_forEach empty_object commands.

(** ** [_FiletoJson] *)

(** [options.encoding] and [options.flag]: reading a property of [null]
    raises a [TypeError]; an object yields its own property, anything else
    (no value modelled here inherits either name) [undefined]. *)
Definition get_option (options : jsval) (name : string) : completion jsval :=
  match options with
  | Prim Null => Throw TypeError
  | Obj props => Normal (match own_get name props with Some v => v | None => undefined end)
  | _ => Normal undefined
  end.

(** [x || d]. *)
Definition or_else (x d : jsval) : jsval := if truthy x then x else d.

(** What [_FiletoJson] returns: the parsed data, or what the process
    function made of it (a promise or not: both branches return it). *)
Inductive loaded (R : Type) :=
| Parsed (data : jsval)
| Processed (result : R).
Arguments Parsed {R} data.
Arguments Processed {R} result.

Section FiletoJson.
(** The file system and the parser are those of the runtime. *)
Variable readFileSync : string -> jsval -> jsval -> completion string.
Variable JSON_parse : string -> completion jsval.
Variable R : Type.

(** [_FiletoJson(path, options = {}, processFunction)]; an omitted argument
    is [undefined] for [options] and [None] for [processFunction]. *)
Definition _FiletoJson (path : string) (options : jsval)
           (processFunction : option (jsval -> completion R)) : completion (loaded R) :=
  let options := match options with Prim Undefined => Obj [] | _ => options end in
  encoding <- get_option options "encoding" ;;
  flag <- get_option options "flag" ;;
  data <- readFileSync path (or_else encoding (str "utf-8")) (or_else flag (str "")) ;;
  parsedData <- JSON_parse data ;;
  match processFunction with
  | Some process => result <- process parsedData ;; Normal (Processed result)
  | None => Normal (Parsed parsedData)
  end.
End FiletoJson.

Arguments _FiletoJson readFileSync JSON_parse {R} path options processFunction.

(** * The documented behaviour

    What the documentation of each function says, written as functions and
    predicates of their own, to be compared with the functions above. *)

(** ** [_case] *)

Section CaseDocumented.
Context {St : Type}.
Implicit Types (variable : prim) (pairs : list (prim * func St)).

(** The argument list made of couples and an optional bare default. *)
Definition arguments pairs (fallback : option (func St)) : list (arg St) :=
  (map (fun kh => Couple (fst kh) (snd kh)) pairs
     ++ match fallback with Some g => [Bare g] | None => [] end)%list.

(** The handler of the last pair whose key converts to the property key
    [key]. *)
Fixpoint key_match (key : string) pairs : option (func St) :=
  match pairs with
  | [] => None
  | (k, h) :: r =>
      match key_match key r with
      | Some h' => Some h'
      | None => if prim_to_string k =? key then Some h else None
      end
  end.

(** The dispatch in the words of the documentation: the handler of the pair
    whose key is strictly equal to the subject (the later pair when several
    are), else the fallback, else the error that carries the subject. *)
Fixpoint strict_match variable pairs : option (func St) :=
  match pairs with
  | [] => None
  | (k, h) :: r =>
      match strict_match variable r with
      | Some h' => Some h'
      | None => if prim_strict_equals k variable then Some h else None
      end
  end.

Definition case_documented variable pairs (fallback : option (func St)) (st : St)
  : completion jsval * St :=
  match strict_match variable pairs with
  | Some h => h st
  | None =>
      match fallback with
      | Some g => g st
      | None => no_case_found variable st
      end
  end.

(** No case key converts to [__proto__]. *)
Definition plain_keys pairs : Prop :=
  Forall (fun kh => prim_to_string (fst kh) <> "__proto__") pairs.
End CaseDocumented.

(** Handlers for the examples: return a string, touch nothing. *)
Definition returns (s : string) : func unit := fun st => (Normal (str s), st).

(** ** [_wait] *)

(** The delay the documentation gives for a unit. *)
Definition documented_delay (value : number) (unit : string) : number :=
  if unit =? "ms" then value
  else if unit =? "s" then mul value (Num 1000)
  else if unit =? "m" then mul value (Num 60000)
  else if unit =? "h" then mul value (Num 3600000)
  else value.

(** The couples of [_wait]. *)
Definition wait_pairs (value : number) : list (prim * func prim) :=
  [(Str "ms", assign value);
   (Str "s", assign (mul value (Num 1000)));
   (Str "m", assign (mul (mul value (Num 1000)) (Num 60)));
   (Str "h", assign (mul (mul (mul value (Num 1000)) (Num 60)) (Num 60)))].

(** ** [_removeDuplicates] *)

(** A left-to-right scan that keeps an element when it is [fresh] with
    respect to the elements already passed, or [listed]. *)
Fixpoint scan (fresh : list item -> item -> bool) (listed : item -> bool)
         (seen l : list item) : list item :=
  match l with
  | [] => []
  | x :: r =>
      if fresh seen x || listed x
      then x :: scan fresh listed (seen ++ [x])%list r
      else scan fresh listed (seen ++ [x])%list r
  end.

Definition occurs (seen : list item) (x : item) : bool :=
  existsb (fun y => strict_equals y x) seen.

(** The documentation, in its words: the first occurrence of every value
    not listed in [except], and every occurrence of a listed one, all
    comparisons being strict equality. *)
Definition removeDuplicates_documented (array except : list item) : list item :=
  scan (fun seen x => negb (occurs seen x)) (occurs except) [] array.

(** What the code keeps: an element that is strictly equal to itself (any
    value but [NaN]) and occurs for the first time, and every element that
    [except] includes under SameValueZero. *)
Definition removeDuplicates_kept (array except : list item) : list item :=
  scan (fun seen x => strict_equals x x && negb (occurs seen x))
       (includes except) [] array.

Definition numbers (l : list Z) : list item := map (fun z => Val (Number (Num z))) l.

(** ** [_ObjectToArray] *)

(** The transformation in the words of the documentation: arrays and
    scalars as they are, an object as the array of its [[key, value']]
    pairs. *)
Fixpoint transform_documented (item : jsval) : jsval :=
  match item with
  | Arr _ => item
  | Obj props =>
      Arr ((fix pairs (l : list (string * jsval)) : list jsval :=
              match l with
              | [] => []
              | (key, val) :: r => Arr [str key; transform_documented val] :: pairs r
              end) props)
  | Prim _ => item
  end.

(** No [null] among the items [transform] visits: property values, through
    nested objects (arrays are not entered). *)
Fixpoint null_free (item : jsval) : bool :=
  match item with
  | Prim Null => false
  | Prim _ => true
  | Arr _ => true
  | Obj props =>
      (fix all (l : list (string * jsval)) : bool :=
         match l with
         | [] => true
         | (_, val) :: r => null_free val && all r
         end) props
  end.

Definition nums (l : list Z) : jsval := Arr (map num l).

(** ** [_ArrayToObject] *)

(** The value the documentation gives to an entry, from the elements that
    remain once the key is taken out. *)
Definition documented_value (values : list jsval) : jsval :=
  match values with
  | [] => null
  | [v] => v
  | _ => Arr values
  end.

(** The elements of [item] but the one at [keyIndex]. *)
Definition without_key (keyIndex : Z) (item : list jsval) : list jsval :=
  (firstn (Z.to_nat keyIndex) item ++ skipn (Z.to_nat (keyIndex + 1)) item)%list.

Definition out_of_bounds (keyIndex : Z) (item : list jsval) : Prop :=
  (keyIndex < 0)%Z \/ (Z.of_nat (List.length item) <= keyIndex)%Z.

(** The property key under which an entry is stored, when its key
    converts to one. *)
Definition entry_key (keyIndex : Z) (item : list jsval) : completion string :=
  to_property_key (nth (Z.to_nat keyIndex) item undefined).

Definition key_converts (keyIndex : Z) (item : list jsval) : Prop :=
  exists k, entry_key keyIndex item = Normal k.

(** The documented value of the last entry stored under [key]. *)
Fixpoint entry_match (keyIndex : Z) (key : string) (array : list (list jsval))
  : option jsval :=
  match array with
  | [] => None
  | item :: r =>
      match entry_match keyIndex key r with
      | Some v => Some v
      | None =>
          match entry_key keyIndex item with
          | Normal k =>
              if k =? key
              then Some (documented_value (without_key keyIndex item))
              else None
          | Throw _ => None
          end
      end
  end.

(** An entry that the code stores as documented: the key index is inside
    it, its key converts to a property key other than [__proto__], and a
    value that remains alone is truthy. *)
Definition plain_entry (keyIndex : Z) (item : list jsval) : Prop :=
  (0 <= keyIndex < Z.of_nat (List.length item))%Z
  /\ (exists k, entry_key keyIndex item = Normal k /\ k <> "__proto__")
  /\ (forall v, without_key keyIndex item = [v] -> truthy v = true).

(** A property list as an object presents it: every key is new when it is
    met, and no key is enumerated before an earlier one. *)
Inductive well_listed {V : Type} : list (string * V) -> Prop :=
| well_listed_nil : well_listed []
| well_listed_snoc (l : list (string * V)) (k : string) (v : V) :
    well_listed l ->
    own_get k l = None ->
    Forall (fun kv => enumerated_before k (fst kv) = false) l ->
    well_listed (l ++ [(k, v)])%list.

(** A scalar that survives [values[0] || null]. *)
Definition truthy_scalar (v : jsval) : Prop :=
  exists p, v = Prim p /\ truthy (Prim p) = true.

(** The entry [[key, value]] of a property. *)
Definition pair_of (kv : string * jsval) : list jsval := [str (fst kv); snd kv].

(** ** [_filterArray] *)

(** Whether the runtime type of an element is one of the tags. *)
Definition type_matches (types : list string) (element : jsval) : bool :=
  existsb (String.eqb (typeof element)) types.

(** The elements that are not arrays, through every level of nesting, left
    to right. *)
Fixpoint leaves_of (element : jsval) : list jsval :=
  match element with
  | Arr nested => flat_map leaves_of nested
  | _ => [element]
  end.

Definition leaves (array : list jsval) : list jsval := flat_map leaves_of array.

(** The nesting alone: the arrays, with every other element taken out. *)
Fixpoint shape_of (element : jsval) : list jsval :=
  match element with
  | Arr nested => [Arr (flat_map shape_of nested)]
  | _ => []
  end.

Definition shape (array : list jsval) : list jsval := flat_map shape_of array.

(** [kept_in result array]: [result] is [array] with some elements that are
    not arrays taken out, at any level of nesting; what stays keeps its
    level and its order, and every array stays. *)
Inductive kept_in : list jsval -> list jsval -> Prop :=
| kept_nil : kept_in [] []
| kept_out (x : jsval) (r a : list jsval) :
    isArray x = false -> kept_in r a -> kept_in r (x :: a)
| kept_same (x : jsval) (r a : list jsval) :
    isArray x = false -> kept_in r a -> kept_in (x :: r) (x :: a)
| kept_nested (n' n r a : list jsval) :
    kept_in n' n -> kept_in r a -> kept_in (Arr n' :: r) (Arr n :: a).

(** What is proved of one element. *)
Definition filter_ok (types : list string) (element : jsval) : Prop :=
  leaves (filterElement types element) = filter (type_matches types) (leaves_of element)
  /\ shape (filterElement types element) = shape_of element
  /\ kept_in (filterElement types element) [element].

(** ** [_insertAt] *)

Definition length_Q (array : list jsval) : Q := inject_Z (Z.of_nat (List.length array)).

(** ** Further notions *)

(** A bare function among the arguments. *)
Definition is_bare {St : Type} (a : arg St) : bool :=
  match a with
  | Bare _ => true
  | Couple _ _ => false
  end.

(** A callback that records its arguments, then does what [callback]
    does. *)
Definition traced {St : Type} (callback : jsval -> string -> St -> completion jsval * St)
  : jsval -> string -> St * list (jsval * string)
    -> completion jsval * (St * list (jsval * string)) :=
  fun value key s =>
    let '(r, st') := callback value key (fst s) in
    (r, (st', (snd s ++ [(value, key)])%list)).

(** The calls [callback(value, key)] that the properties ask for. *)
Definition calls_of (props : list (string * jsval)) : list (jsval * string) :=
  map (fun kv => (snd kv, fst kv)) props.

(** The callback returns normally on a property, in every state. *)
Definition quiet {St : Type} (callback : jsval -> string -> St -> completion jsval * St)
           (kv : string * jsval) : Prop :=
  forall st, exists x st', callback (snd kv) (fst kv) st = (Normal x, st').

(** The callback throws on a property, in every state. *)
Definition throwing {St : Type} (callback : jsval -> string -> St -> completion jsval * St)
           (kv : string * jsval) : Prop :=
  forall st, exists e st', callback (snd kv) (fst kv) st = (Throw e, st').

(** The elements of an array under their indices, from index [i] on. *)
Fixpoint indexed (i : nat) (items : list jsval) : list (string * jsval) :=
  match items with
  | [] => []
  | x :: r => (index_to_string i, x) :: indexed (S i) r
  end.

(** The command the last mapping named [name] gives. *)
Fixpoint command_match (name : string) (commands : list (list (string * jsval)))
  : option jsval :=
  match commands with
  | [] => None
  | commandPair :: r =>
      match command_match name r with
      | Some cmd => Some cmd
      | None =>
          match commandPair with
          | (n, cmd) :: _ => if n =? name then Some cmd else None
          | [] => None
          end
      end
  end.

(** A mapping with a first entry, whose name is not [__proto__]. *)
Definition plain_command (commandPair : list (string * jsval)) : Prop :=
  match commandPair with
  | (name, _) :: _ => name <> "__proto__"
  | [] => False
  end.

(** The string a value is, or the empty string (for the examples). *)
Definition to_string_or (v : jsval) : string :=
  match v with
  | Prim (Str s) => s
  | _ => ""
  end.

(** An option that is absent or falsy. *)
Definition unset (options : jsval) (name : string) : Prop :=
  exists v, get_option options name = Normal v /\ truthy v = false.

(** The key index lies inside an entry. *)
Definition inside (keyIndex : Z) (item : list jsval) : Prop :=
  (0 <= keyIndex < Z.of_nat (List.length item))%Z.

(** What [_ArrayToObject] can store: a truthy value, or [null]. *)
Definition storable (v : jsval) : Prop := truthy v = true \/ v = null.

(** The scan the code of [_removeDuplicates] is, from any list of elements
    already passed. *)
Definition kept (except seen l : list item) : list item :=
  scan (fun seen x => strict_equals x x && negb (occurs seen x)) (includes except) seen l.

(** The unit tags on which [_wait] rejects: the methods of
    [Object.prototype] that convert [this] to an object, and [__proto__]. *)
Definition rejecting_units : list string :=
  ["hasOwnProperty"; "propertyIsEnumerable"; "toLocaleString"; "valueOf";
   "__defineGetter__"; "__defineSetter__"; "__lookupGetter__"; "__lookupSetter__";
   "__proto__"].

(** * Properties *)

(** Case analysis on the test of a conditional in the goal. *)
Ltac destruct_if :=
  match goal with
  | |- context [if ?b then _ else _] => destruct b
  end.

(** ** Own properties *)

Section OwnProperties.
Context {V : Type}.
Implicit Types (k : string) (v : V) (l : list (string * V)).

Lemma own_get_update k k' v l :
  own_get k (own_update k' v l) =
  match own_get k' l with
  | Some _ => if k' =? k then Some v else own_get k l
  | None => own_get k l
  end.
Proof.
  induction l as [|[k0 v0] r IH]; simpl; [reflexivity|].
  destruct (k0 =? k') eqn:E0; simpl.
  - apply String.eqb_eq in E0; subst k0.
    destruct (k' =? k); reflexivity.
  - rewrite IH. destruct (own_get k' r) eqn:G.
    + destruct (k' =? k) eqn:E1; [|reflexivity].
      apply String.eqb_eq in E1; subst k. now rewrite E0.
    + reflexivity.
Qed.

Lemma own_get_create k k' v l :
  own_get k' l = None ->
  own_get k (own_create k' v l) = if k' =? k then Some v else own_get k l.
Proof.
  induction l as [|[k0 v0] r IH]; simpl; intros H; [reflexivity|].
  destruct (k0 =? k') eqn:E0; [discriminate|].
  destruct (enumerated_before k' k0); simpl.
  - reflexivity.
  - rewrite (IH H). destruct (k0 =? k) eqn:E1; [|reflexivity].
    apply String.eqb_eq in E1; subst k0.
    rewrite String.eqb_sym, E0. reflexivity.
Qed.

(** Reading after writing. *)
Lemma own_get_put k k' v l :
  own_get k (own_put k' v l) = if k' =? k then Some v else own_get k l.
Proof.
  unfold own_put. destruct (own_get k' l) eqn:G.
  - rewrite own_get_update, G. reflexivity.
  - now apply own_get_create.
Qed.

(** A key that no earlier key follows is created last. *)
Lemma own_create_last k v l :
  Forall (fun kv => enumerated_before k (fst kv) = false) l ->
  own_create k v l = (l ++ [(k, v)])%list.
Proof.
  induction 1 as [|[k' v'] r Hk _ IH]; [reflexivity|].
  cbn [fst] in Hk. cbn [own_create]. rewrite Hk, IH. reflexivity.
Qed.

(** Away from the key [__proto__], an assignment writes an own property and
    leaves the prototype alone. *)
Lemma obj_set_plain as_prototype shadows (o : object V) k v :
  k <> "__proto__" ->
  obj_set as_prototype shadows o k v = mkObject (own_put k v (own o)) (proto o).
Proof.
  intros Hk. unfold obj_set.
  apply String.eqb_neq in Hk. rewrite Hk. simpl.
  destruct (own_get k (own o)); reflexivity.
Qed.
End OwnProperties.

(** ** [_case] *)

Section CaseProperties.
Context {St : Type}.
Implicit Types (variable : prim) (pairs : list (prim * func St)) (st : St).

Lemma pop_snoc (l : list (arg St)) (z : arg St) : pop (l ++ [z])%list = Some (l, z).
Proof.
  induction l as [|a r IH]; [reflexivity|].
  change ((a :: r) ++ [z])%list with (a :: (r ++ [z]))%list.
  simpl. rewrite IH. destruct (r ++ [z])%list eqn:E; [|reflexivity].
  now destruct r.
Qed.

(** With at least one argument, [_case] tells the default from the couples
    and dispatches. *)
Lemma case_arguments variable pairs (fallback : option (func St)) st :
  (pairs = [] -> fallback <> None) ->
  _case variable (arguments pairs fallback) st
  = dispatch variable (map (fun kh => Couple (fst kh) (snd kh)) pairs)
      (match fallback with Some g => g | None => no_case_found variable end) st.
Proof.
  intros Hne. unfold _case, arguments. destruct fallback as [g|].
  - now rewrite pop_snoc.
  - rewrite app_nil_r.
    destruct pairs as [|kh r] using rev_ind; [now elim Hne|].
    rewrite map_app. cbn [map]. now rewrite pop_snoc.
Qed.

(** With no argument at all, the [undefined] that [pop] returned is pushed
    back and cannot be destructured. *)
Lemma case_no_argument variable st :
  _case variable (arguments [] None) st = Some (Throw TypeError, st).
Proof. reflexivity. Qed.

(** Folding the couples into the table. *)
Lemma reduce_couples pairs : forall acc : table St,
  plain_keys pairs ->
  exists switchLike,
    reduce acc (map (fun kh => Couple (fst kh) (snd kh)) pairs) = Normal switchLike
    /\ proto switchLike = proto acc
    /\ forall key,
        own_get key (own switchLike) =
        match key_match key pairs with
        | Some h => Some h
        | None => own_get key (own acc)
        end.
Proof.
  induction pairs as [|[k h] r IH]; intros acc Hp.
  - exists acc. simpl. auto.
  - inversion Hp as [|? ? Hk Hr]; subst. simpl in Hk.
    simpl. unfold table_set. rewrite obj_set_plain by exact Hk.
    destruct (IH (mkObject (own_put (prim_to_string k) h (own acc)) (proto acc)) Hr)
      as (t & Ht & Hproto & Hget).
    exists t. split; [exact Ht|]. split; [exact Hproto|].
    intros key. rewrite Hget. simpl.
    destruct (key_match key r); [reflexivity|].
    rewrite own_get_put. destruct (prim_to_string k =? key); reflexivity.
Qed.

(** The dispatch, for a subject that names nothing inherited. *)
Lemma dispatch_plain variable pairs (defaultFunc : func St) st :
  plain_keys pairs ->
  inherited (prim_to_string variable) = false ->
  dispatch variable (map (fun kh => Couple (fst kh) (snd kh)) pairs) defaultFunc st
  = Some match key_match (prim_to_string variable) pairs with
         | Some h => h st
         | None => defaultFunc st
         end.
Proof.
  intros Hp Hi. unfold dispatch.
  destruct (reduce_couples pairs empty_object Hp) as (t & -> & Hproto & Hget).
  unfold table_get. rewrite Hget, Hproto. simpl.
  destruct (key_match (prim_to_string variable) pairs); [reflexivity|].
  unfold object_prototype_get. unfold inherited in Hi.
  destruct (object_prototype_call (prim_to_string variable)); [discriminate|].
  now rewrite Hi.
Qed.

(** While no couple is keyed [__proto__], the run stays inside the model,
    whatever the subject. *)
Lemma dispatch_defined variable pairs (defaultFunc : func St) st :
  plain_keys pairs ->
  dispatch variable (map (fun kh => Couple (fst kh) (snd kh)) pairs) defaultFunc st
  <> None.
Proof.
  intros Hp. unfold dispatch.
  destruct (reduce_couples pairs empty_object Hp) as (t & -> & Hproto & _).
  unfold table_get. rewrite Hproto. simpl.
  destruct (own_get (prim_to_string variable) (own t)); [discriminate|].
  now destruct (object_prototype_get (prim_to_string variable)).
Qed.

Lemma case_defined variable pairs (fallback : option (func St)) st :
  plain_keys pairs ->
  _case variable (arguments pairs fallback) st <> None.
Proof.
  intros Hp. destruct pairs as [|kh r] eqn:E.
  - destruct fallback as [g|]; [|discriminate].
    rewrite case_arguments by discriminate. now apply dispatch_defined.
  - rewrite case_arguments by discriminate. now apply dispatch_defined.
Qed.
End CaseProperties.

(** The tests of the suite. *)
Example case_test_default :
  _case (Str "case3")
    (arguments [(Str "case1", returns "Case 1 executed");
                (Str "case2", returns "Case 2 executed")]
       (Some (returns "Default case executed"))) tt
  = Some (Normal (str "Default case executed"), tt).
Proof. reflexivity. Qed.

Example case_test_no_default :
  _case (Str "case3")
    (arguments [(Str "case1", returns "Case 1 executed");
                (Str "case2", returns "Case 2 executed")] None) tt
  = Some (Throw (Error "No case found for key: case3"), tt).
Proof. reflexivity. Qed.

(** A subject that names a member of [Object.prototype] reaches neither a
    handler nor the default. *)
Example case_inherited_subject :
  _case (Str "toString")
    (arguments [(Str "case1", returns "Case 1 executed")]
       (Some (returns "Default case executed"))) tt
  = Some (Normal (str "[object Undefined]"), tt).
Proof. reflexivity. Qed.

(** C1, as first stated, does not hold: with the subject [1] and the single
    couple [['1', f]], no case key is strictly equal to the subject, so the
    documented dispatch runs the default; [_case] runs [f], because both the
    key and the subject are converted to the property key ["1"]. *)
Lemma case_strict_equality_counterexample :
  _case (Number (Num 1)) (arguments [(Str "1", returns "one")] (Some (returns "default"))) tt
  <> Some (case_documented (Number (Num 1)) [(Str "1", returns "one")]
             (Some (returns "default")) tt).
Proof. vm_compute. discriminate. Qed.

(** C1 (amended): for a subject whose property key is not a name inherited
    from [Object.prototype], and couples with primitive keys of which none
    converts to [__proto__], optionally followed by a bare default (at least
    one argument in all), [_case] calls, and returns the result of, the
    handler of the last couple whose key converts to the same property key
    as the subject; when no key does, it calls the default; and when no
    default was given it raises the error that carries the subject. *)
Theorem case_dispatch_by_property_key :
  forall (St : Type) (variable : prim) (pairs : list (prim * func St))
         (fallback : option (func St)) (st : St),
    plain_keys pairs ->
    inherited (prim_to_string variable) = false ->
    (pairs = [] -> fallback <> None) ->
    _case variable (arguments pairs fallback) st =
    Some match key_match (prim_to_string variable) pairs with
         | Some h => h st
         | None =>
             match fallback with
             | Some g => g st
             | None => (Throw (Error ("No case found for key: " ++ prim_to_string variable)), st)
             end
         end.
Proof.
  intros St variable pairs fallback st Hp Hi Hne.
  rewrite (case_arguments variable pairs fallback st Hne).
  rewrite (dispatch_plain variable pairs _ st Hp Hi).
  now destruct fallback.
Qed.

(** The first test of the suite, through the theorem. *)
Lemma case_dispatch_by_property_key_witness :
  plain_keys [(Str "case1", returns "Case 1 executed"); (Str "case2", returns "Case 2 executed")]
  /\ inherited (prim_to_string (Str "case1")) = false
  /\ _case (Str "case1")
       (arguments [(Str "case1", returns "Case 1 executed");
                   (Str "case2", returns "Case 2 executed")] None) tt
     = Some (Normal (str "Case 1 executed"), tt).
Proof.
  split; [|split].
  - repeat constructor; simpl; discriminate.
  - reflexivity.
  - apply (case_dispatch_by_property_key unit (Str "case1")
             [(Str "case1", returns "Case 1 executed"); (Str "case2", returns "Case 2 executed")]
             None tt).
    + repeat constructor; simpl; discriminate.
    + reflexivity.
    + discriminate.
Defined.

(** ** [_wait] *)


Lemma wait_pairs_plain (value : number) : plain_keys (wait_pairs value).
Proof. repeat constructor; simpl; discriminate. Qed.

Lemma wait_dispatch (value : number) (unit : string) :
  _wait value unit =
  match dispatch (Str unit)
          (map (fun kh => Couple (fst kh) (snd kh)) (wait_pairs value))
          (fun _ => (Normal undefined, Number value)) Undefined with
  | None => None
  | Some (Throw e, _) => Some (Rejected e)
  | Some (Normal _, timeInMs) => Some (ResolvesAfter timeInMs)
  end.
Proof. reflexivity. Qed.

(** [_wait] always returns a promise. *)
Lemma wait_total (value : number) (unit : string) :
  exists p, _wait value unit = Some p.
Proof.
  rewrite wait_dispatch.
  pose proof (dispatch_defined (Str unit) (wait_pairs value)
                (fun _ => (Normal undefined, Number value)) Undefined
                (wait_pairs_plain value)) as H.
  destruct (dispatch _ _ _ _) as [[[v|e] t]|]; [eauto|eauto|now elim H].
Qed.


(** The tests of the suite: one second in milliseconds, one second, and a
    unit that is not one. *)
Example wait_tests :
  _wait (Num 1000) "ms" = Some (ResolvesAfter (Number (Num 1000)))
  /\ _wait (Num 1) "s" = Some (ResolvesAfter (Number (Num 1000)))
  /\ _wait (Num 1) "bad" = Some (ResolvesAfter (Number (Num 1))).
Proof. repeat split. Qed.

(** C9 fails on the code for unit tags that name a member of
    [Object.prototype]: the lookup finds the inherited method instead of
    falling to the default.  With ['valueOf'] the method raises a
    [TypeError] inside the executor, so the promise is rejected; with
    ['toString'] it returns without assigning [timeInMs], so the timer is
    set with an [undefined] delay instead of [value]. *)
Theorem wait_inherited_unit :
  _wait (Num 1000) "valueOf" = Some (Rejected TypeError)
  /\ _wait (Num 1000) "toString" = Some (ResolvesAfter Undefined)
  /\ documented_delay (Num 1000) "valueOf" = Num 1000
  /\ documented_delay (Num 1000) "toString" = Num 1000.
Proof. repeat split. Qed.

(** ** [_removeDuplicates] *)

Lemma indexOf_from_range (l : list item) (x : item) : forall i,
  indexOf_from i l x = (-1)%Z
  \/ (i <= indexOf_from i l x < i + Z.of_nat (List.length l))%Z.
Proof.
  induction l as [|y r IH]; intros i; simpl; [now left|].
  destruct (strict_equals y x).
  - right. lia.
  - destruct (IH (i + 1)%Z) as [->|H]; [now left|right; lia].
Qed.

Lemma indexOf_from_app (pre suf : list item) (x : item) : forall i,
  if occurs pre x
  then (i <= indexOf_from i (pre ++ suf) x < i + Z.of_nat (List.length pre))%Z
  else indexOf_from i (pre ++ suf) x
       = indexOf_from (i + Z.of_nat (List.length pre)) suf x.
Proof.
  unfold occurs. induction pre as [|y r IH]; intros i.
  - simpl. now rewrite Z.add_0_r.
  - change ((y :: r) ++ suf)%list with (y :: (r ++ suf))%list.
    cbn [existsb indexOf_from List.length].
    destruct (strict_equals y x); cbn [orb].
    + lia.
    + specialize (IH (i + 1)%Z).
      destruct (existsb (fun y0 => strict_equals y0 x) r).
      * lia.
      * rewrite IH. f_equal. lia.
Qed.

(** The test of the filter, at the element that follows [pre]. *)
Lemma indexOf_is_index (pre r : list item) (x : item) :
  (indexOf (pre ++ x :: r) x =? Z.of_nat (List.length pre))%Z
  = strict_equals x x && negb (occurs pre x).
Proof.
  unfold indexOf. pose proof (indexOf_from_app pre (x :: r) x 0%Z) as H.
  destruct (occurs pre x).
  - rewrite andb_false_r. apply Z.eqb_neq. lia.
  - rewrite H. cbn [indexOf_from negb]. rewrite andb_true_r.
    destruct (strict_equals x x).
    + apply Z.eqb_eq. lia.
    + apply Z.eqb_neq.
      destruct (indexOf_from_range r x (0 + Z.of_nat (List.length pre) + 1)%Z); lia.
Qed.

Lemma filter_from_scan (array except : list item) : forall suf pre,
  array = (pre ++ suf)%list ->
  filter_from
    (fun value index => (indexOf array value =? index)%Z || includes except value)
    (Z.of_nat (List.length pre)) suf
  = scan (fun seen x => strict_equals x x && negb (occurs seen x))
         (includes except) pre suf.
Proof.
  induction suf as [|x r IH]; intros pre E; [reflexivity|].
  cbn [filter_from scan].
  assert (E' : array = ((pre ++ [x]) ++ r)%list) by now rewrite <- app_assoc.
  specialize (IH (pre ++ [x])%list E').
  rewrite length_app, Nat2Z.inj_add in IH. cbn [List.length] in IH.
  assert (T : (indexOf array x =? Z.of_nat (List.length pre))%Z
              = strict_equals x x && negb (occurs pre x))
    by (rewrite E; apply indexOf_is_index).
  rewrite T. change (Z.of_nat 1) with 1%Z in IH. rewrite IH. reflexivity.
Qed.

(** The code, as a scan: it keeps the first occurrence of every value but
    [NaN], and every occurrence of what [except] includes. *)
Lemma removeDuplicates_scan (array : list item) (except : option (list item)) :
  _removeDuplicates array except
  = removeDuplicates_kept array (match except with Some e => e | None => [] end).
Proof.
  unfold _removeDuplicates, removeDuplicates_kept.
  exact (filter_from_scan array _ array [] eq_refl).
Qed.

(** On arrays without [NaN] the code and the documentation agree. *)
Lemma scan_ext (fresh fresh' : list item -> item -> bool) (listed listed' : item -> bool)
      (l : list item) : forall seen,
  Forall (fun x => (forall s, fresh s x = fresh' s x) /\ listed x = listed' x) l ->
  scan fresh listed seen l = scan fresh' listed' seen l.
Proof.
  induction l as [|x r IH]; intros seen H; [reflexivity|].
  inversion H as [|? ? [Hf Hl] Hr]; subst. simpl.
  rewrite Hf, Hl, (IH _ Hr). reflexivity.
Qed.

Lemma same_value_zero_strict (x y : item) :
  strict_equals x x = true -> same_value_zero y x = strict_equals y x.
Proof.
  intros H. destruct x as [p|a], y as [q|b]; simpl in *; try reflexivity.
  destruct q as [| |?|[|?]|?], p as [| |?|[|?]|?]; simpl in *;
    try reflexivity; discriminate.
Qed.

(** X5: on an array that holds no [NaN], [_removeDuplicates] returns
    what the documentation says: the first occurrence of every value that
    [except] does not list and every occurrence of the listed ones, in the
    order of the array. *)
Lemma removeDuplicates_without_nan (array : list item) (except : option (list item)) :
  Forall (fun x => strict_equals x x = true) array ->
  _removeDuplicates array except
  = removeDuplicates_documented array (match except with Some e => e | None => [] end).
Proof.
  intros H. unfold _removeDuplicates, removeDuplicates_documented.
  rewrite (filter_from_scan array _ array [] eq_refl).
  apply scan_ext. eapply Forall_impl; [|exact H].
  intros x Hx. cbv beta. split.
  - intros s. now rewrite Hx.
  - unfold includes, occurs. clear H.
    induction (match except with Some e => e | None => [] end) as [|y r IH];
      [reflexivity|].
    simpl. now rewrite IH, same_value_zero_strict.
Qed.

(** The tests of the suite. *)
Example removeDuplicates_tests :
  _removeDuplicates (numbers [1; 2; 3; 1; 2; 3; 4; 5]%Z) None = numbers [1; 2; 3; 4; 5]%Z
  /\ _removeDuplicates (numbers [1; 2; 3; 1; 2; 3; 4; 5]%Z) (Some (numbers [1; 2]%Z))
     = numbers [1; 2; 3; 1; 2; 4; 5]%Z
  /\ _removeDuplicates [] None = [].
Proof. repeat split. Qed.

(** Two references to one object are duplicates; two objects are not. *)
Example removeDuplicates_references :
  _removeDuplicates [Ref 0; Ref 1; Ref 0] None = [Ref 0; Ref 1].
Proof. reflexivity. Qed.

(** C4 fails on the code for an array that holds [NaN]: the documentation
    keeps the first occurrence of every value, and the code drops every
    [NaN] that [except] does not list, because [indexOf] compares with
    strict equality and so never finds [NaN]: [_removeDuplicates([NaN])] is
    empty, though [[NaN]] holds no duplicate. *)
Theorem removeDuplicates_drops_nan :
  _removeDuplicates [Val (Number NaN)] None = []
  /\ removeDuplicates_documented [Val (Number NaN)] [] = [Val (Number NaN)]
  /\ _removeDuplicates [Val (Number (Num 1)); Val (Number NaN); Val (Number (Num 1))] None
     = [Val (Number (Num 1))].
Proof. repeat split. Qed.

(** ** [_ObjectToArray] *)

(** [transform] either follows the documentation or raises the
    [TypeError] of [Object.entries(null)]. *)
Lemma transform_spec (item : jsval) :
  transform item =
  if null_free item then Normal (transform_documented item) else Throw TypeError.
Proof.
  induction item as [p|items _|props IH] using jsval_nested_ind.
  - now destruct p.
  - reflexivity.
  - cbn [transform null_free transform_documented].
    match goal with
    | |- bind ?m _ = (if ?b then Normal (Arr ?d) else _) =>
        assert (E : m = if b then Normal d else Throw TypeError)
    end.
    { induction props as [|[key val] r IHr]; [reflexivity|].
      inversion IH as [|? ? Hval Hr]; subst. cbn [snd] in Hval.
      rewrite Hval, (IHr Hr).
      destruct (null_free val); cbn [bind andb]; [|reflexivity].
      now destruct_if. }
    rewrite E.
    now destruct_if.
Qed.

(** The example of the documentation. *)
Lemma ObjectToArray_example :
  _ObjectToArray
    (Obj [("a", nums [1; 2; 3]%Z);
          ("b", Obj [("c", nums [4; 5; 6]%Z); ("d", Obj [("e", nums [7; 8; 9]%Z)])])])
  = Normal
      (Arr [Arr [str "a"; nums [1; 2; 3]%Z];
            Arr [str "b";
                 Arr [Arr [str "c"; nums [4; 5; 6]%Z];
                      Arr [str "d"; Arr [Arr [str "e"; nums [7; 8; 9]%Z]]]]]]).
Proof. reflexivity. Qed.

(** On an object that holds no [null], [_ObjectToArray] is the documented
    transformation. *)
Lemma ObjectToArray_documented (props : list (string * jsval)) :
  null_free (Obj props) = true ->
  _ObjectToArray (Obj props) = Normal (transform_documented (Obj props)).
Proof.
  intros H. unfold _ObjectToArray. cbn [typeof String.eqb negb orb].
  change ("object" =? "object") with true. cbn [negb orb].
  now rewrite transform_spec, H.
Qed.

(** C7 fails on the code where a property value is [null]: the
    documentation returns the scalar as it is ([[['a', null]]]), the code
    takes [null] for an object, since [typeof null] is ['object'], and
    [Object.entries(null)] raises a [TypeError].  The guard at the top of
    [_ObjectToArray] excludes [null]; the inner [transform] does not. *)
Theorem ObjectToArray_nested_null :
  _ObjectToArray (Obj [("a", null)]) = Throw TypeError
  /\ transform_documented (Obj [("a", null)]) = Arr [Arr [str "a"; null]].
Proof. split; reflexivity. Qed.

(** C10: an array given to [_ObjectToArray], nested or empty, passes the
    guard ([typeof] is ['object'] and it is not [null]) and comes back as
    it is, with no error. *)
Theorem ObjectToArray_array_identity :
  forall items : list jsval, _ObjectToArray (Arr items) = Normal (Arr items).
Proof. intros items. reflexivity. Qed.

(** The other tests of the suite: a flat object, an empty object, and
    the inputs that are not objects. *)
Example ObjectToArray_tests :
  _ObjectToArray (Obj [("a", num 10); ("b", num 20); ("c", num 30)])
  = Normal (Arr [Arr [str "a"; num 10]; Arr [str "b"; num 20]; Arr [str "c"; num 30]])
  /\ _ObjectToArray (Obj []) = Normal (Arr [])
  /\ _ObjectToArray null = Throw (Error "Input is not an object")
  /\ _ObjectToArray undefined = Throw (Error "Input is not an object")
  /\ _ObjectToArray (num 123) = Throw (Error "Input is not an object")
  /\ _ObjectToArray (str "string") = Throw (Error "Input is not an object")
  /\ _ObjectToArray (boolean true) = Throw (Error "Input is not an object").
Proof. repeat split. Qed.

(** ** [_ArrayToObject] *)

Lemma entry_step_throws (keyIndex : Z) (acc : object jsval) (item : list jsval) :
  out_of_bounds keyIndex item ->
  entry_step keyIndex acc item = Throw (Error "Key index is out of bounds").
Proof.
  intros H. unfold entry_step.
  replace ((keyIndex <? 0)%Z || (keyIndex >=? Z.of_nat (List.length item))%Z) with true;
    [reflexivity|].
  symmetry. apply orb_true_iff. destruct H as [H|H].
  - left. now apply Z.ltb_lt.
  - right. rewrite Z.geb_leb. now apply Z.leb_le.
Qed.

(** Inside the bounds, the entry is stored under its key with the
    documented value, provided a value that remains alone is truthy. *)
Lemma entry_step_documented (keyIndex : Z) (acc : object jsval) (item : list jsval)
      (k : string) :
  (0 <= keyIndex < Z.of_nat (List.length item))%Z ->
  entry_key keyIndex item = Normal k ->
  (forall v, without_key keyIndex item = [v] -> truthy v = true) ->
  entry_step keyIndex acc item
  = Normal (value_set acc k (documented_value (without_key keyIndex item))).
Proof.
  intros Hb Hk Ht. unfold entry_step.
  replace ((keyIndex <? 0)%Z || (keyIndex >=? Z.of_nat (List.length item))%Z) with false.
  2:{ symmetry. apply orb_false_iff. split.
      - apply Z.ltb_ge. lia.
      - rewrite Z.geb_leb. apply Z.leb_gt. lia. }
  fold (without_key keyIndex item). cbv zeta.
  fold (entry_key keyIndex item). rewrite Hk. cbn [bind]. f_equal. f_equal.
  destruct (without_key keyIndex item) as [|v [|w r]] eqn:E; cbn.
  - reflexivity.
  - now rewrite (Ht v eq_refl).
  - reflexivity.
Qed.

(** An entry whose key converts either raises the error of the bounds or is
    stored. *)
Lemma entry_step_cases (keyIndex : Z) (acc : object jsval) (item : list jsval) :
  key_converts keyIndex item ->
  entry_step keyIndex acc item = Throw (Error "Key index is out of bounds")
  \/ exists acc', entry_step keyIndex acc item = Normal acc'.
Proof.
  intros [k Hk]. unfold entry_step.
  destruct ((keyIndex <? 0)%Z || (keyIndex >=? Z.of_nat (List.length item))%Z);
    [now left|right].
  cbv zeta. fold (entry_key keyIndex item). rewrite Hk. cbn [bind]. eauto.
Qed.

(** Entries stored as documented make the documented mapping: each key
    holds the value of the last entry stored under it. *)
Lemma reduce_entries_documented (keyIndex : Z) (array : list (list jsval)) :
  forall acc : object jsval,
    Forall (plain_entry keyIndex) array ->
    exists o,
      reduce_entries keyIndex acc array = Normal o
      /\ proto o = proto acc
      /\ forall key,
          own_get key (own o) =
          match entry_match keyIndex key array with
          | Some v => Some v
          | None => own_get key (own acc)
          end.
Proof.
  induction array as [|item r IH]; intros acc H.
  - exists acc. simpl. auto.
  - inversion H as [|? ? (Hb & (k & Hk & Hplain) & Ht) Hr]; subst.
    cbn [reduce_entries]. rewrite (entry_step_documented keyIndex acc item k Hb Hk Ht).
    cbn [bind]. unfold value_set.
    rewrite obj_set_plain by exact Hplain.
    destruct (IH (mkObject (own_put k (documented_value (without_key keyIndex item))
                              (own acc))
                    (proto acc)) Hr) as (o & Ho & Hproto & Hget).
    exists o. split; [exact Ho|]. split; [exact Hproto|].
    intros key. rewrite Hget. cbn [entry_match own]. rewrite Hk.
    destruct (entry_match keyIndex key r); [reflexivity|].
    rewrite own_get_put. destruct (k =? key); reflexivity.
Qed.

(** X12: when the key index lies inside every entry, no key converts to
    [__proto__] and no value that remains alone is falsy, [_ArrayToObject]
    returns an object whose prototype is untouched and that holds, under
    each key, the documented value of the last entry of that key (the
    element left, or the array of the elements left), and nothing else. *)
Lemma ArrayToObject_documented (array : list (list jsval)) (keyIndex : Z) :
  Forall (plain_entry keyIndex) array ->
  exists o,
    _ArrayToObject array keyIndex = Normal o
    /\ proto o = ObjectPrototype
    /\ forall key, own_get key (own o) = entry_match keyIndex key array.
Proof.
  intros H. unfold _ArrayToObject.
  destruct (reduce_entries_documented keyIndex array empty_object H)
    as (o & Ho & Hproto & Hget).
  exists o. split; [exact Ho|]. split; [exact Hproto|].
  intros key. rewrite Hget. now destruct (entry_match keyIndex key array).
Qed.

(** An entry keyed [__proto__] stores nothing: the assignment runs the
    setter of [Object.prototype], which ignores a number. *)
Example ArrayToObject_proto_key :
  _ArrayToObject [[str "__proto__"; num 5]] 0 = Normal (mkObject [] ObjectPrototype).
Proof. reflexivity. Qed.

(** C2 fails on the code where the one remaining element is falsy: for the
    entry [['a', 0]] the documentation stores [0] under ['a'], the code
    stores [null], because [values[0] || null] replaces every falsy value,
    not only the missing one. *)
Theorem ArrayToObject_falsy_value :
  _ArrayToObject [[str "a"; num 0]] 0 = Normal (mkObject [("a", null)] ObjectPrototype)
  /\ documented_value (without_key 0 [str "a"; num 0]) = num 0.
Proof. split; reflexivity. Qed.

(** The examples of the documentation. *)
Lemma ArrayToObject_examples :
  _ArrayToObject [[str "a"; num 10]; [str "b"; num 20]; [str "c"; num 30]] 0
  = Normal (mkObject [("a", num 10); ("b", num 20); ("c", num 30)] ObjectPrototype)
  /\ _ArrayToObject [[str "a"; num 10]; [str "b"; num 20]; [str "c"; num 30]] 1
     = Normal (mkObject [("10", str "a"); ("20", str "b"); ("30", str "c")] ObjectPrototype)
  /\ _ArrayToObject [[str "a"; num 10; str "x"]; [str "b"; num 20; str "y"]] 0
     = Normal (mkObject [("a", Arr [num 10; str "x"]); ("b", Arr [num 20; str "y"])]
                 ObjectPrototype).
Proof. repeat split. Qed.

(** C8, as first stated, does not hold: a negative [keyIndex] on an empty
    array raises nothing, since the test sits in the reducer and runs once
    per entry. *)
Lemma ArrayToObject_empty_array_counterexample :
  ~ (forall (array : list (list jsval)) (keyIndex : Z),
        (keyIndex < 0)%Z
        \/ Exists (fun item => (Z.of_nat (List.length item) <= keyIndex)%Z) array ->
        _ArrayToObject array keyIndex = Throw (Error "Key index is out of bounds")).
Proof.
  intros H. specialize (H [] (-1)%Z (or_introl eq_refl)). discriminate H.
Qed.

(** C8 (amended): [_ArrayToObject] fails with the error "Key index is out
    of bounds" whenever the array holds an entry for which [keyIndex] is
    negative or at least the length of that entry (the keys of the entries
    being values that convert to property keys); in particular
    [keyIndex = 2] on entries of length 2. *)
Theorem ArrayToObject_out_of_bounds :
  forall (array : list (list jsval)) (keyIndex : Z),
    Exists (out_of_bounds keyIndex) array ->
    Forall (key_converts keyIndex) array ->
    _ArrayToObject array keyIndex = Throw (Error "Key index is out of bounds").
Proof.
  intros array keyIndex H. unfold _ArrayToObject.
  generalize (@empty_object jsval) as acc.
  induction H as [item r H|item r _ IH]; intros acc Hc; cbn [reduce_entries].
  - now rewrite entry_step_throws.
  - inversion Hc as [|? ? Hitem Hr]; subst.
    destruct (entry_step_cases keyIndex acc item Hitem) as [->|[acc' ->]];
      [reflexivity|].
    now apply IH.
Qed.

Lemma ArrayToObject_out_of_bounds_witness :
  Exists (out_of_bounds 2) [[str "a"; num 10]; [str "b"; num 20]]
  /\ Forall (key_converts 2) [[str "a"; num 10]; [str "b"; num 20]]
  /\ _ArrayToObject [[str "a"; num 10]; [str "b"; num 20]] 2
     = Throw (Error "Key index is out of bounds").
Proof.
  assert (Hc : Forall (key_converts 2) [[str "a"; num 10]; [str "b"; num 20]])
    by (repeat constructor; exists "undefined"; reflexivity).
  split; [|split; [exact Hc|]].
  - apply Exists_cons_hd. right. simpl. lia.
  - apply (ArrayToObject_out_of_bounds [[str "a"; num 10]; [str "b"; num 20]] 2).
    + apply Exists_cons_hd. right. simpl. lia.
    + exact Hc.
Defined.

(** An object that carries its own [toString] does not convert to a
    property key: the entry raises a [TypeError]. *)
Example ArrayToObject_unprintable_key :
  _ArrayToObject [[Obj [("toString", num 1)]; num 5]] 0 = Throw TypeError.
Proof. reflexivity. Qed.

(** ** The round trip [_ArrayToObject(_ObjectToArray(m), 0)] *)

Lemma reduce_entries_app (keyIndex : Z) (a b : list (list jsval)) : forall acc,
  reduce_entries keyIndex acc (a ++ b)%list
  = (acc' <- reduce_entries keyIndex acc a ;; reduce_entries keyIndex acc' b).
Proof.
  induction a as [|item r IH]; intros acc; [reflexivity|].
  change ((item :: r) ++ b)%list with (item :: (r ++ b))%list.
  cbn [reduce_entries]. destruct (entry_step keyIndex acc item); cbn [bind]; auto.
Qed.

Lemma ObjectToArray_flat (props : list (string * jsval)) :
  Forall (fun kv => truthy_scalar (snd kv)) props ->
  _ObjectToArray (Obj props) = Normal (Arr (map (fun kv => Arr (pair_of kv)) props)).
Proof.
  intros H.
  assert (E : null_free (Obj props) = true
              /\ transform_documented (Obj props)
                 = Arr (map (fun kv => Arr (pair_of kv)) props)).
  { cbn [null_free transform_documented].
    induction H as [|[k v] r Hkv _ [IH1 IH2]]; [split; reflexivity|].
    destruct Hkv as (p & Ep & Hp). cbn [snd] in Ep. subst v.
    rewrite IH1. injection IH2 as ->.
    split; [|reflexivity]. now destruct p. }
  destruct E as [E1 E2]. now rewrite ObjectToArray_documented, E2.
Qed.

Lemma as_entries_pairs (props : list (string * jsval)) :
  as_entries (Arr (map (fun kv => Arr (pair_of kv)) props)) = Some (map pair_of props).
Proof.
  cbn [as_entries]. induction props as [|kv r IH]; [reflexivity|].
  cbn [map]. now rewrite IH.
Qed.

Lemma reduce_entries_pairs (props : list (string * jsval)) :
  well_listed props ->
  Forall (fun kv => fst kv <> "__proto__") props ->
  Forall (fun kv => truthy_scalar (snd kv)) props ->
  reduce_entries 0 empty_object (map pair_of props)
  = Normal (mkObject props ObjectPrototype).
Proof.
  induction 1 as [|l k v _ IH Hnew Hord]; intros Hk Hv; [reflexivity|].
  apply Forall_app in Hk as [Hkl Hk]. apply Forall_app in Hv as [Hvl Hv].
  inversion Hk as [|? ? Hk' _]; subst. inversion Hv as [|? ? (p & Ep & Hp) _]; subst.
  cbn [fst snd] in *. subst v.
  rewrite map_app, reduce_entries_app, (IH Hkl Hvl).
  cbn [bind map reduce_entries]. unfold pair_of. cbn [fst snd].
  rewrite (entry_step_documented 0 _ [str k; Prim p] k).
  2:{ cbn [List.length]. lia. }
  2:{ reflexivity. }
  2:{ intros w Hw. injection Hw as <-. exact Hp. }
  change (documented_value (without_key 0 [str k; Prim p])) with (Prim p).
  cbn [bind]. unfold value_set.
  rewrite obj_set_plain by exact Hk'. cbn [own proto].
  unfold own_put. rewrite Hnew, (own_create_last _ _ _ Hord). reflexivity.
Qed.

(** X16: on a flat mapping of truthy scalars, no key of which is
    [__proto__], the round trip [_ArrayToObject(_ObjectToArray(m), 0)] gives
    the mapping back, keys in the same order. *)
Lemma roundtrip_truthy_scalars (props : list (string * jsval)) :
  well_listed props ->
  Forall (fun kv => fst kv <> "__proto__") props ->
  Forall (fun kv => truthy_scalar (snd kv)) props ->
  roundtrip (Obj props) = Some (Normal (mkObject props ObjectPrototype)).
Proof.
  intros Hw Hk Hv. unfold roundtrip.
  rewrite (ObjectToArray_flat props Hv), as_entries_pairs.
  unfold _ArrayToObject. now rewrite reduce_entries_pairs.
Qed.

(** The example of the documentation. *)
Lemma roundtrip_example :
  roundtrip (Obj [("a", num 10); ("b", num 20)])
  = Some (Normal (mkObject [("a", num 10); ("b", num 20)] ObjectPrototype)).
Proof. reflexivity. Qed.

(** C3 fails on the code for a flat mapping that holds a falsy scalar:
    [{a: 0}] comes back as [{a: null}] (the [||] of [_ArrayToObject]), and
    [{a: null}] does not come back at all (the [TypeError] of the inner
    [transform]). *)
Theorem roundtrip_falsy_scalar :
  roundtrip (Obj [("a", num 0)]) = Some (Normal (mkObject [("a", null)] ObjectPrototype))
  /\ roundtrip (Obj [("a", null)]) = Some (Throw TypeError).
Proof. split; reflexivity. Qed.

(** ** [_filterArray] *)

Lemma kept_in_app (r a r' a' : list jsval) :
  kept_in r a -> kept_in r' a' -> kept_in (r ++ r')%list (a ++ a')%list.
Proof.
  intros H H'.
  induction H; cbn [app];
    [exact H'|apply kept_out|apply kept_same|apply kept_nested]; assumption.
Qed.

Lemma filter_ok_all (types : list string) (array : list jsval) :
  Forall (filter_ok types) array ->
  leaves (flat_map (filterElement types) array)
  = filter (type_matches types) (flat_map leaves_of array)
  /\ shape (flat_map (filterElement types) array) = flat_map shape_of array
  /\ kept_in (flat_map (filterElement types) array) array.
Proof.
  unfold leaves, shape.
  induction 1 as [|x r (Hl & Hs & Hk) _ (IHl & IHs & IHk)].
  - repeat split. constructor.
  - cbn [flat_map]. rewrite !flat_map_app, filter_app.
    fold (leaves (filterElement types x)). fold (shape (filterElement types x)).
    rewrite Hl, Hs, IHl, IHs. repeat split.
    change (x :: r) with ([x] ++ r)%list. now apply kept_in_app.
Qed.

Lemma filterElement_ok (types : list string) (element : jsval) : filter_ok types element.
Proof.
  induction element as [p|items IH|props _] using jsval_nested_ind.
  - unfold filter_ok, leaves, shape. cbn [filterElement leaves_of shape_of filter].
    fold (type_matches types (Prim p)).
    destruct (type_matches types (Prim p)); cbn; repeat split;
      auto using kept_in.
  - destruct (filter_ok_all types items IH) as (Hl & Hs & Hk).
    unfold filter_ok, leaves, shape.
    cbn [filterElement leaves_of shape_of flat_map]. rewrite !app_nil_r.
    fold (leaves (flat_map (filterElement types) items)).
    fold (shape (flat_map (filterElement types) items)).
    rewrite Hl, Hs. repeat split. apply kept_nested; [exact Hk|constructor].
  - unfold filter_ok, leaves, shape. cbn [filterElement leaves_of shape_of filter].
    fold (type_matches types (Obj props)).
    destruct (type_matches types (Obj props)); cbn; repeat split;
      auto using kept_in.
Qed.
(** The tests of the suite and the example of the README. *)
Example filterArray_tests :
  _filterArray [num 1; str "hello"; boolean true; num 2] ["number"] = [num 1; num 2]
  /\ _filterArray [num 1; str "hello"; boolean true; num 2] ["number"; "string"]
     = [num 1; str "hello"; num 2]
  /\ _filterArray [] ["number"] = []
  /\ _filterArray [boolean true; str "hello"; Obj []] ["number"] = []
  /\ _filterArray [num 1; Arr [str "hello"; Arr [num 2; str "world"]]; boolean true] ["string"]
     = [Arr [str "hello"; Arr [str "world"]]]
  /\ _filterArray [num 1; str "hello"; Arr [num 2; boolean true; str "world"];
                   Obj [("foo", str "bar")]] ["number"; "string"]
     = [num 1; str "hello"; Arr [num 2; str "world"]].
Proof. repeat split. Qed.

(** C6: for every array, nested or not, and every set of type tags,
    [_filterArray] returns a new array that holds, through every level of
    nesting, exactly the elements whose runtime type is one of the tags (the
    leaves of the result are the matching leaves of the input, in order),
    at their level and in their order ([kept_in]); every nested array stays,
    empty when nothing in it matches (the shapes are equal).  The example of
    the suite is the last part. *)
Theorem filterArray_keeps_matching :
  forall (array : list jsval) (types : list string),
    leaves (_filterArray array types) = filter (type_matches types) (leaves array)
    /\ shape (_filterArray array types) = shape array
    /\ kept_in (_filterArray array types) array
    /\ _filterArray [num 1; Arr [str "hello"; num 2; boolean false]; boolean true; num 3]
         ["number"]
       = [num 1; Arr [num 2]; num 3]
    /\ _filterArray [Arr [str "hello"]; num 1] ["number"] = [Arr []; num 1].
Proof.
  intros array types. unfold _filterArray.
  destruct (filter_ok_all types array) as (Hl & Hs & Hk).
  - apply Forall_forall. intros x _. apply filterElement_ok.
  - repeat split; assumption.
Qed.

(** ** [_insertAt] *)

Local Open Scope Q_scope.

Lemma insertAt_outside (array : list jsval) (index : Q) (items : list jsval) :
  index < 0 \/ length_Q array < index ->
  _insertAt array index items = array.
Proof.
  intros H. unfold _insertAt. fold (length_Q array).
  destruct (Qle_bool 0 index && Qle_bool index (length_Q array)) eqn:E; [|reflexivity].
  apply andb_true_iff in E as [E1 E2].
  apply Qle_bool_iff in E1, E2.
  destruct H as [H|H]; [now apply Qlt_not_le in H|now apply Qlt_not_le in H].
Qed.

Lemma insertAt_inside (array : list jsval) (index : Q) (items : list jsval) :
  0 <= index <= length_Q array ->
  _insertAt array index items
  = (firstn (Z.to_nat (Qfloor index)) array ++ items
       ++ skipn (Z.to_nat (Qfloor index)) array)%list.
Proof.
  intros [H1 H2]. unfold _insertAt. fold (length_Q array).
  apply Qle_bool_iff in H1, H2. now rewrite H1, H2.
Qed.

(** The floor of an index inside the bounds is inside the bounds. *)
Lemma floor_inside (array : list jsval) (index : Q) :
  0 <= index <= length_Q array ->
  (0 <= Qfloor index <= Z.of_nat (List.length array))%Z.
Proof.
  intros [H1 H2]. split.
  - change 0%Z with (Qfloor 0). now apply Qfloor_resp_le.
  - rewrite <- (Qfloor_Z (Z.of_nat (List.length array))). now apply Qfloor_resp_le.
Qed.

(** C5: for every array, index and items, [_insertAt] returns the array as
    it is when the index is below [0] or above the length; for an index
    inside [[0, length]], whole or fractional, the items stand between the
    first [floor index] elements and the rest, which is what the whole
    index [floor index] gives; so [3.14] on [[1,2,3,4]] gives
    [[1,2,3,'a','b',4]], and [-1] or [5] leave [[1,2,3,4]] as it is. *)
Theorem insertAt_policy :
  forall (array : list jsval) (index : Q) (items : list jsval),
    (index < 0 \/ length_Q array < index -> _insertAt array index items = array)
    /\ (0 <= index <= length_Q array ->
        (exists before after : list jsval,
            array = (before ++ after)%list
            /\ Z.of_nat (List.length before) = Qfloor index
            /\ _insertAt array index items = (before ++ items ++ after)%list)
        /\ _insertAt array index items = _insertAt array (inject_Z (Qfloor index)) items)
    /\ _insertAt [num 1; num 2; num 3; num 4] (314 # 100) [str "a"; str "b"]
       = [num 1; num 2; num 3; str "a"; str "b"; num 4]
    /\ _insertAt [num 1; num 2; num 3; num 4] (-1 # 1) [str "a"; str "b"]
       = [num 1; num 2; num 3; num 4]
    /\ _insertAt [num 1; num 2; num 3; num 4] (5 # 1) [str "a"; str "b"]
       = [num 1; num 2; num 3; num 4].
Proof.
  intros array index items. split; [apply insertAt_outside|].
  split; [|repeat split].
  intros H. pose proof (floor_inside array index H) as Hf. split.
  - exists (firstn (Z.to_nat (Qfloor index)) array),
           (skipn (Z.to_nat (Qfloor index)) array).
    split; [now rewrite firstn_skipn|]. split; [|now apply insertAt_inside].
    rewrite length_firstn. lia.
  - rewrite (insertAt_inside array index items H).
    rewrite insertAt_inside; [now rewrite Qfloor_Z|].
    unfold length_Q. split.
    + change 0 with (inject_Z 0). rewrite <- Zle_Qle. apply Hf.
    + rewrite <- Zle_Qle. apply Hf.
Qed.

Lemma insertAt_policy_witness :
  (0 <= 314 # 100 <= length_Q [num 1; num 2; num 3; num 4])
  /\ _insertAt [num 1; num 2; num 3; num 4] (314 # 100) [str "a"; str "b"]
     = _insertAt [num 1; num 2; num 3; num 4] (inject_Z (Qfloor (314 # 100)))
         [str "a"; str "b"]
  /\ (5 # 1 < 0 \/ length_Q [num 1; num 2; num 3; num 4] < 5 # 1)
  /\ _insertAt [num 1; num 2; num 3; num 4] (5 # 1) [str "a"; str "b"]
     = [num 1; num 2; num 3; num 4].
Proof.
  assert (Hin : 0 <= 314 # 100 <= length_Q [num 1; num 2; num 3; num 4])
    by (split; discriminate).
  assert (Hout : 5 # 1 < 0 \/ length_Q [num 1; num 2; num 3; num 4] < 5 # 1)
    by (right; reflexivity).
  destruct (insertAt_policy [num 1; num 2; num 3; num 4] (314 # 100) [str "a"; str "b"])
    as (_ & Hinside & _).
  destruct (insertAt_policy [num 1; num 2; num 3; num 4] (5 # 1) [str "a"; str "b"])
    as (Houtside & _).
  split; [exact Hin|]. split; [exact (proj2 (Hinside Hin))|].
  split; [exact Hout|exact (Houtside Hout)].
Defined.

(** The other tests of the suite and the example of the README. *)
Example insertAt_tests :
  _insertAt [num 1; num 2; num 3; num 4] (2 # 1) [str "a"; str "b"]
  = [num 1; num 2; str "a"; str "b"; num 3; num 4]
  /\ _insertAt [num 1; num 2; num 3; num 4] (0 # 1) [str "a"; str "b"]
     = [str "a"; str "b"; num 1; num 2; num 3; num 4]
  /\ _insertAt [num 1; num 2; num 3; num 4] (4 # 1) [str "a"; str "b"]
     = [num 1; num 2; num 3; num 4; str "a"; str "b"]
  /\ _insertAt [num 1; num 2; num 3; num 4; num 5] (314 # 100)
       [str "a"; str "b"; boolean true]
     = [num 1; num 2; num 3; str "a"; str "b"; boolean true; num 4; num 5].
Proof. repeat split. Qed.

Local Close Scope Q_scope.

(** * Further properties *)

(** ** [_case] beyond the documented cases *)

Section CaseFurther.
Context {St : Type}.
Implicit Types (variable : prim) (pairs : list (prim * func St)) (st : St).

(** The dispatch over couples with plain keys, for any subject. *)
Lemma dispatch_plain_keys variable pairs (defaultFunc : func St) st :
  plain_keys pairs ->
  dispatch variable (map (fun kh => Couple (fst kh) (snd kh)) pairs) defaultFunc st
  = Some match key_match (prim_to_string variable) pairs with
         | Some h => h st
         | None =>
             match object_prototype_call (prim_to_string variable) with
             | Some c => (c, st)
             | None =>
                 if prim_to_string variable =? "__proto__"
                 then (Throw TypeError, st)
                 else defaultFunc st
             end
         end.
Proof.
  intros Hp. unfold dispatch.
  destruct (reduce_couples pairs empty_object Hp) as (t & -> & Hproto & Hget).
  unfold table_get. rewrite Hget, Hproto. simpl.
  destruct (key_match (prim_to_string variable) pairs); [reflexivity|].
  unfold object_prototype_get.
  destruct (object_prototype_call (prim_to_string variable)); [reflexivity|].
  now destruct (prim_to_string variable =? "__proto__").
Qed.

(** A bare function stops the fold of the couples. *)
Lemma reduce_bare (l l' : list (arg St)) : forall acc : table St,
  existsb is_bare l = true ->
  reduce acc (l ++ l')%list = Throw TypeError.
Proof.
  induction l as [|a r IH]; intros acc H; [discriminate|].
  change ((a :: r) ++ l')%list with (a :: (r ++ l'))%list.
  destruct a as [k h|f]; cbn [reduce reduce_step bind]; [|reflexivity].
  apply IH. exact H.
Qed.
End CaseFurther.

(** X1: when no couple is keyed [__proto__], the outcome of [_case] is
    settled by the property key of the subject: the last couple under that
    key wins, even when the key names a member of [Object.prototype];
    failing that, a subject that names a method of [Object.prototype] has
    that method called, so neither a handler nor the default runs and the
    state is untouched; the subject [__proto__] raises a [TypeError]; any
    other subject runs the default (the given one, or the one that raises
    "No case found"). *)
Theorem case_with_plain_keys :
  forall (St : Type) (variable : prim) (pairs : list (prim * func St))
         (fallback : option (func St)) (st : St),
    plain_keys pairs ->
    (pairs = [] -> fallback <> None) ->
    _case variable (arguments pairs fallback) st =
    Some match key_match (prim_to_string variable) pairs with
         | Some h => h st
         | None =>
             match object_prototype_call (prim_to_string variable) with
             | Some c => (c, st)
             | None =>
                 if prim_to_string variable =? "__proto__"
                 then (Throw TypeError, st)
                 else match fallback with
                      | Some g => g st
                      | None => no_case_found variable st
                      end
             end
         end.
Proof.
  intros St variable pairs fallback st Hp Hne.
  rewrite (case_arguments variable pairs fallback st Hne).
  rewrite (dispatch_plain_keys variable pairs _ st Hp).
  now destruct fallback.
Qed.

Lemma case_with_plain_keys_witness :
  plain_keys [(Str "valueOf", returns "own"); (Str "case2", returns "Case 2 executed")]
  /\ _case (Str "valueOf")
       (arguments [(Str "valueOf", returns "own"); (Str "case2", returns "Case 2 executed")]
          (Some (returns "Default case executed"))) tt
     = Some (Normal (str "own"), tt)
  /\ _case (Str "hasOwnProperty")
       (arguments [(Str "valueOf", returns "own"); (Str "case2", returns "Case 2 executed")]
          (Some (returns "Default case executed"))) tt
     = Some (Throw TypeError, tt).
Proof.
  assert (Hp : plain_keys [(Str "valueOf", returns "own");
                           (Str "case2", returns "Case 2 executed")])
    by (repeat constructor; simpl; discriminate).
  split; [exact Hp|]. split.
  - apply (case_with_plain_keys unit (Str "valueOf") _ (Some (returns "Default case executed"))
             tt Hp). discriminate.
  - apply (case_with_plain_keys unit (Str "hasOwnProperty") _
             (Some (returns "Default case executed")) tt Hp). discriminate.
Defined.

(** X2: a bare function anywhere before the last argument makes [_case]
    raise a [TypeError] (the reducer cannot destructure it): no handler and
    no default is called, and the state is as it was. *)
Theorem case_bare_before_last :
  forall (St : Type) (variable : prim) (couples : list (arg St)) (last : arg St) (st : St),
    existsb is_bare couples = true ->
    _case variable (couples ++ [last])%list st = Some (Throw TypeError, st).
Proof.
  intros St variable couples last st H. unfold _case. rewrite pop_snoc.
  destruct last as [k h|f]; unfold dispatch.
  - now rewrite (reduce_bare couples [Couple k h] empty_object H).
  - rewrite <- (app_nil_r couples). now rewrite (reduce_bare couples [] empty_object H).
Qed.

Lemma case_bare_before_last_witness :
  existsb is_bare [Bare (returns "early"); Couple (Str "case1") (returns "Case 1 executed")]
  = true
  /\ _case (Str "case1")
       ([Bare (returns "early"); Couple (Str "case1") (returns "Case 1 executed")]
          ++ [Bare (returns "Default case executed")])%list tt
     = Some (Throw TypeError, tt).
Proof.
  split; [reflexivity|].
  apply (case_bare_before_last unit (Str "case1")
           [Bare (returns "early"); Couple (Str "case1") (returns "Case 1 executed")]
           (Bare (returns "Default case executed")) tt).
  reflexivity.
Defined.

(** ** [_wait]: when it rejects *)

Lemma wait_outcome (value : number) (unit : string) :
  _wait value unit =
  Some match key_match unit (wait_pairs value) with
       | Some h =>
           match h Undefined with
           | (Throw e, _) => Rejected e
           | (Normal _, timeInMs) => ResolvesAfter timeInMs
           end
       | None =>
           match object_prototype_call unit with
           | Some (Throw e) => Rejected e
           | Some (Normal _) => ResolvesAfter Undefined
           | None =>
               if unit =? "__proto__" then Rejected TypeError
               else ResolvesAfter (Number value)
           end
       end.
Proof.
  rewrite wait_dispatch.
  rewrite (dispatch_plain_keys (Str unit) (wait_pairs value) _ Undefined
             (wait_pairs_plain value)).
  cbn [prim_to_string].
  destruct (key_match unit (wait_pairs value)) as [h|].
  - now destruct (h Undefined) as [[v|e] t].
  - destruct (object_prototype_call unit) as [[v|e]|]; try reflexivity.
    now destruct (unit =? "__proto__").
Qed.

(** X4: [_wait] returns a rejected promise exactly for the unit tags that
    name [__proto__] or one of the eight methods of [Object.prototype] that
    convert [this] to an object (['valueOf'], ['hasOwnProperty'], ...); for
    every other tag the promise is left pending on the timer. *)
Theorem wait_rejects_iff :
  forall (value : number) (unit : string),
    (exists e, _wait value unit = Some (Rejected e)) <-> In unit rejecting_units.
Proof.
  intros value unit. split.
  - intros [e H]. rewrite wait_outcome in H. injection H as H.
    cbn [key_match wait_pairs prim_to_string fst snd] in H.
    unfold object_prototype_call, assign in H.
    repeat match type of H with
           | context [if ?b then _ else _] => destruct b eqn:?
           end; try discriminate.
    + match goal with
      | E : existsb _ _ = true |- _ => apply existsb_exists in E; destruct E as (x & Hin & Hx)
      end.
      apply String.eqb_eq in Hx. subst x.
      unfold rejecting_units. simpl in Hin |- *. tauto.
    + match goal with
      | E : (unit =? "__proto__") = true |- _ => apply String.eqb_eq in E; subst unit
      end.
      unfold rejecting_units. simpl. tauto.
  - unfold rejecting_units. simpl.
    intros H. exists TypeError.
    repeat destruct H as [<-|H]; try reflexivity. contradiction.
Qed.

(** ** [_removeDuplicates]: what is kept *)

(** Strict equality holds between a value and itself only, and not for
    [NaN]. *)
Lemma strict_equals_eq (a b : item) : strict_equals a b = true -> a = b.
Proof.
  destruct a as [p|x], b as [q|y]; simpl; try discriminate.
  - destruct p as [| |u|[|u]|u], q as [| |v|[|v]|v]; simpl; try discriminate;
      try reflexivity; intros H.
    + apply Bool.eqb_prop in H. now subst.
    + apply Z.eqb_eq in H. now subst.
    + apply String.eqb_eq in H. now subst.
  - intros H. apply Nat.eqb_eq in H. now subst.
Qed.

Lemma occurs_In (l : list item) (x : item) :
  occurs l x = true <-> In x l /\ strict_equals x x = true.
Proof.
  unfold occurs. rewrite existsb_exists. split.
  - intros (y & Hin & Hy). pose proof (strict_equals_eq y x Hy) as ->. auto.
  - intros [Hin Hx]. exists x. auto.
Qed.

Section ScanKept.
Variable except : list item.

Lemma kept_cons (seen : list item) (x : item) (r : list item) :
  kept except seen (x :: r) =
  if strict_equals x x && negb (occurs seen x) || includes except x
  then x :: kept except (seen ++ [x])%list r
  else kept except (seen ++ [x])%list r.
Proof. reflexivity. Qed.

Lemma kept_excepted (l : list item) : forall seen,
  filter (includes except) (kept except seen l) = filter (includes except) l.
Proof.
  induction l as [|x r IH]; intros seen; [reflexivity|].
  rewrite kept_cons. cbn [filter].
  destruct (includes except x) eqn:E.
  - rewrite orb_true_r. cbn [filter]. now rewrite E, IH.
  - rewrite orb_false_r.
    destruct (strict_equals x x && negb (occurs seen x)); [cbn [filter]; rewrite E|];
      apply IH.
Qed.

Lemma kept_every_value (l : list item) (x : item) : forall seen,
  In x l -> strict_equals x x = true -> In x seen \/ In x (kept except seen l).
Proof.
  induction l as [|y r IH]; intros seen Hin Hx; [contradiction|].
  rewrite kept_cons.
  assert (Hhead : In x seen \/ y <> x \/
                  (strict_equals y y && negb (occurs seen y) || includes except y) = true).
  { destruct (occurs seen x) eqn:O.
    - left. now apply occurs_In in O.
    - destruct (strict_equals y y && negb (occurs seen y) || includes except y) eqn:K;
        [auto|].
      right. left. intros ->. now rewrite Hx, O in K. }
  destruct Hin as [->|Hin].
  - destruct Hhead as [H|[H|H]]; [now left|now elim H|].
    rewrite H. right. now left.
  - destruct (IH (seen ++ [y])%list Hin Hx) as [H|H].
    + apply in_app_or in H as [H|[->|[]]]; [now left|].
      destruct Hhead as [H|[H|H]]; [now left|now elim H|].
      rewrite H. right. now left.
    + right. destruct (_ || _); [now right|exact H].
Qed.

Lemma kept_repeats (l : list item) : forall seen pre x post,
  kept except seen l = (pre ++ x :: post)%list ->
  In x seen \/ In x pre ->
  includes except x = true.
Proof.
  induction l as [|y r IH]; intros seen pre x post E Hin.
  - now destruct pre.
  - rewrite kept_cons in E.
    destruct (strict_equals y y && negb (occurs seen y) || includes except y) eqn:K.
    + destruct pre as [|z pre'].
      * injection E as <- E. destruct Hin as [Hin|[]].
        apply orb_true_iff in K as [K|K]; [|exact K].
        apply andb_true_iff in K as [Ky Ko].
        assert (O : occurs seen y = true) by now apply occurs_In.
        now rewrite O in Ko.
      * injection E as <- E. apply (IH _ _ _ _ E).
        destruct Hin as [Hin|[->|Hin]]; [left|left|now right];
          apply in_or_app; [now left|right; now left].
    + apply (IH _ _ _ _ E).
      destruct Hin as [Hin|Hin]; [left; apply in_or_app; now left|now right].
Qed.

Lemma kept_again (l : list item) : forall seen seen',
  incl seen' seen ->
  kept except seen' (kept except seen l) = kept except seen l.
Proof.
  induction l as [|y r IH]; intros seen seen' Hi; [reflexivity|].
  rewrite kept_cons.
  destruct (strict_equals y y && negb (occurs seen y) || includes except y) eqn:K.
  - rewrite kept_cons.
    assert (K' : (strict_equals y y && negb (occurs seen' y) || includes except y) = true).
    { apply orb_true_iff in K as [K|K]; [|now rewrite K, orb_true_r].
      apply andb_true_iff in K as [Ky Ko]. rewrite Ky.
      destruct (occurs seen' y) eqn:O; [|reflexivity].
      apply occurs_In in O as [O _].
      assert (O' : occurs seen y = true) by (apply occurs_In; auto).
      now rewrite O' in Ko. }
    rewrite K'. f_equal. apply IH.
    intros z Hz. apply in_app_or in Hz as [Hz|Hz]; apply in_or_app; auto.
  - apply IH. intros z Hz. apply in_or_app. auto.
Qed.
End ScanKept.

(** X6: removing the duplicates twice, with the same exceptions, changes
    nothing more. *)
Theorem removeDuplicates_idempotent :
  forall (array : list item) (except : option (list item)),
    _removeDuplicates (_removeDuplicates array except) except
    = _removeDuplicates array except.
Proof.
  intros array except. rewrite !removeDuplicates_scan.
  apply (kept_again _ array [] []). apply incl_refl.
Qed.

(** X7: a value stands twice in the result only when [except] includes
    it; without exceptions, no value of the result is repeated. *)
Theorem removeDuplicates_repeats_only_excepted :
  forall (array : list item) (except : option (list item)) (pre : list item) (x : item)
         (post : list item),
    _removeDuplicates array except = (pre ++ x :: post)%list ->
    In x pre ->
    includes (match except with Some e => e | None => [] end) x = true.
Proof.
  intros array except pre x post E Hin. rewrite removeDuplicates_scan in E.
  apply (kept_repeats _ array [] pre x post E). now right.
Qed.

Lemma removeDuplicates_repeats_only_excepted_witness :
  _removeDuplicates (numbers [1; 2; 1; 2]%Z) (Some (numbers [1]%Z))
  = (numbers [1; 2]%Z ++ Val (Number (Num 1)) :: [])%list
  /\ In (Val (Number (Num 1))) (numbers [1; 2]%Z)
  /\ includes (numbers [1]%Z) (Val (Number (Num 1))) = true.
Proof.
  assert (E : _removeDuplicates (numbers [1; 2; 1; 2]%Z) (Some (numbers [1]%Z))
              = (numbers [1; 2]%Z ++ Val (Number (Num 1)) :: [])%list) by reflexivity.
  assert (Hin : In (Val (Number (Num 1))) (numbers [1; 2]%Z)) by (left; reflexivity).
  split; [exact E|]. split; [exact Hin|].
  exact (removeDuplicates_repeats_only_excepted (numbers [1; 2; 1; 2]%Z)
           (Some (numbers [1]%Z)) (numbers [1; 2]%Z) (Val (Number (Num 1))) [] E Hin).
Defined.

(** X8: no value is lost but [NaN]: every element of the array that is
    strictly equal to itself is an element of the result. *)
Theorem removeDuplicates_keeps_every_value :
  forall (array : list item) (except : option (list item)) (x : item),
    In x array ->
    strict_equals x x = true ->
    In x (_removeDuplicates array except).
Proof.
  intros array except x Hin Hx. rewrite removeDuplicates_scan.
  destruct (kept_every_value (match except with Some e => e | None => [] end)
              array x [] Hin Hx) as [[]|H].
  exact H.
Qed.

Lemma removeDuplicates_keeps_every_value_witness :
  In (Ref 7) [Ref 7; Val (Number NaN); Ref 7]
  /\ strict_equals (Ref 7) (Ref 7) = true
  /\ In (Ref 7) (_removeDuplicates [Ref 7; Val (Number NaN); Ref 7] None).
Proof.
  assert (Hin : In (Ref 7) [Ref 7; Val (Number NaN); Ref 7]) by (left; reflexivity).
  split; [exact Hin|]. split; [reflexivity|].
  exact (removeDuplicates_keeps_every_value [Ref 7; Val (Number NaN); Ref 7] None (Ref 7)
           Hin eq_refl).
Defined.

(** X9: every occurrence of a value that [except] includes is kept, in
    the order of the array. *)
Theorem removeDuplicates_keeps_excepted :
  forall (array : list item) (except : option (list item)),
    filter (includes (match except with Some e => e | None => [] end))
      (_removeDuplicates array except)
    = filter (includes (match except with Some e => e | None => [] end)) array.
Proof.
  intros array except. rewrite removeDuplicates_scan.
  apply (kept_excepted _ array []).
Qed.

(** The agreement with the documentation on an array without [NaN], on
    the first two tests of the suite. *)
Lemma removeDuplicates_without_nan_witness :
  Forall (fun x => strict_equals x x = true) (numbers [1; 2; 3; 1; 2; 3; 4; 5]%Z)
  /\ _removeDuplicates (numbers [1; 2; 3; 1; 2; 3; 4; 5]%Z) (Some (numbers [1; 2]%Z))
     = removeDuplicates_documented (numbers [1; 2; 3; 1; 2; 3; 4; 5]%Z) (numbers [1; 2]%Z).
Proof.
  assert (H : Forall (fun x => strict_equals x x = true)
                (numbers [1; 2; 3; 1; 2; 3; 4; 5]%Z))
    by (repeat constructor).
  split; [exact H|].
  exact (removeDuplicates_without_nan (numbers [1; 2; 3; 1; 2; 3; 4; 5]%Z)
           (Some (numbers [1; 2]%Z)) H).
Defined.

(** ** [_ObjectToArray]: every outcome *)

(** X10: the three outcomes of [_ObjectToArray]: a primitive (a string, a
    number, a boolean, [null], [undefined]) raises the error "Input is not
    an object"; an array or an object in which [transform] meets no [null]
    gives the documented transformation; one in which it meets a [null]
    raises a [TypeError]. *)
Theorem ObjectToArray_outcome :
  forall obj : jsval,
    _ObjectToArray obj =
    match obj with
    | Prim _ => Throw (Error "Input is not an object")
    | _ => if null_free obj then Normal (transform_documented obj) else Throw TypeError
    end.
Proof.
  intros [p|items|props].
  - now destruct p.
  - reflexivity.
  - unfold _ObjectToArray. cbn [typeof]. change ("object" =? "object") with true.
    cbn [negb orb]. apply transform_spec.
Qed.

(** X11: what [_ObjectToArray] returns is left as it is by
    [_ObjectToArray]: the result is an array, and arrays are not
    transformed. *)
Theorem ObjectToArray_idempotent :
  forall obj v : jsval,
    _ObjectToArray obj = Normal v ->
    _ObjectToArray v = Normal v.
Proof.
  intros [p|items|props] v H.
  - now destruct p.
  - injection H as <-. reflexivity.
  - unfold _ObjectToArray in H. cbn [typeof] in H.
    change ("object" =? "object") with true in H. cbn [negb orb] in H.
    rewrite transform_spec in H. destruct (null_free (Obj props)); [|discriminate].
    injection H as <-. reflexivity.
Qed.

Lemma ObjectToArray_idempotent_witness :
  _ObjectToArray (Obj [("a", num 10); ("b", Obj [("c", num 20)])])
  = Normal (Arr [Arr [str "a"; num 10]; Arr [str "b"; Arr [Arr [str "c"; num 20]]]])
  /\ _ObjectToArray (Arr [Arr [str "a"; num 10]; Arr [str "b"; Arr [Arr [str "c"; num 20]]]])
     = Normal (Arr [Arr [str "a"; num 10]; Arr [str "b"; Arr [Arr [str "c"; num 20]]]]).
Proof.
  assert (H : _ObjectToArray (Obj [("a", num 10); ("b", Obj [("c", num 20)])])
              = Normal (Arr [Arr [str "a"; num 10];
                             Arr [str "b"; Arr [Arr [str "c"; num 20]]]]))
    by reflexivity.
  split; [exact H|].
  exact (ObjectToArray_idempotent _ _ H).
Defined.

(** ** [_ArrayToObject]: what the result holds *)

Section OwnInvariants.
Context {V : Type}.
Implicit Types (k : string) (v : V) (l : list (string * V)).

Lemma own_get_In k v l : own_get k l = Some v -> In (k, v) l.
Proof.
  induction l as [|[k' v'] r IH]; simpl; [discriminate|].
  destruct (k' =? k) eqn:E.
  - apply String.eqb_eq in E. subst k'. intros H. injection H as ->. now left.
  - intros H. right. now apply IH.
Qed.

Lemma own_get_None k l : own_get k l = None -> ~ In k (map fst l).
Proof.
  induction l as [|[k' v'] r IH]; simpl; [tauto|].
  destruct (k' =? k) eqn:E; [discriminate|].
  apply String.eqb_neq in E. intros H [H'|H']; [contradiction|]. now apply IH.
Qed.

Lemma own_update_keys k v l : map fst (own_update k v l) = map fst l.
Proof.
  induction l as [|[k' v'] r IH]; [reflexivity|].
  cbn [own_update]. destruct (k' =? k); cbn [map fst]; [reflexivity|now rewrite IH].
Qed.

Lemma own_create_In k v l (kv : string * V) :
  In kv (own_create k v l) <-> kv = (k, v) \/ In kv l.
Proof.
  induction l as [|[k' v'] r IH]; cbn [own_create].
  - simpl. intuition.
  - destruct (enumerated_before k k'); simpl; [intuition|].
    rewrite IH. intuition.
Qed.

Lemma own_update_In k v l (kv : string * V) :
  In kv (own_update k v l) -> snd kv = v \/ In kv l.
Proof.
  induction l as [|[k' v'] r IH]; cbn [own_update]; [tauto|].
  destruct (k' =? k); simpl.
  - intros [<-|H]; [now left|right; now right].
  - intros [<-|H]; [right; now left|]. destruct (IH H); [now left|right; now right].
Qed.

Lemma own_create_NoDup k v l :
  ~ In k (map fst l) -> NoDup (map fst l) -> NoDup (map fst (own_create k v l)).
Proof.
  induction l as [|[k' v'] r IH]; cbn [own_create]; intros Hk Hn.
  - simpl. constructor; [tauto|constructor].
  - destruct (enumerated_before k k'); cbn [map fst].
    + constructor; assumption.
    + inversion Hn as [|? ? Hk' Hr]; subst. simpl in Hk.
      constructor.
      * intros H. apply in_map_iff in H as ([k0 v0] & E & H). cbn [fst] in E. subst k0.
        apply own_create_In in H as [H|H].
        -- injection H as -> _. tauto.
        -- apply Hk'. apply in_map_iff. now exists (k', v0).
      * apply IH; tauto.
Qed.

(** Writing an own property keeps the keys distinct, and keeps whatever
    holds of every value, when it holds of the value written. *)
Lemma own_put_NoDup k v l : NoDup (map fst l) -> NoDup (map fst (own_put k v l)).
Proof.
  intros Hn. unfold own_put. destruct (own_get k l) eqn:G.
  - now rewrite own_update_keys.
  - apply own_create_NoDup; [now apply own_get_None|exact Hn].
Qed.

Lemma own_put_Forall (P : V -> Prop) k v l :
  P v -> Forall (fun kv => P (snd kv)) l -> Forall (fun kv => P (snd kv)) (own_put k v l).
Proof.
  intros Hv Hl. apply Forall_forall. intros kv Hin.
  rewrite Forall_forall in Hl. unfold own_put in Hin.
  destruct (own_get k l).
  - apply own_update_In in Hin as [->|Hin]; auto.
  - apply own_create_In in Hin as [->|Hin]; auto.
Qed.

(** An assignment either leaves the own properties alone or writes one. *)
Lemma obj_set_own as_prototype shadows (o : object V) k v :
  own (obj_set as_prototype shadows o k v) = own o
  \/ own (obj_set as_prototype shadows o k v) = own_put k v (own o).
Proof.
  unfold obj_set. destruct (own_get k (own o)); [now right|].
  destruct ((k =? "__proto__") && accessor_in_chain V shadows o); [|now right].
  destruct (as_prototype v); now left.
Qed.
End OwnInvariants.

(** The value an entry stores is truthy or [null]; the keys stay
    distinct. *)
Lemma entry_step_invariants (keyIndex : Z) (acc acc' : object jsval) (item : list jsval) :
  entry_step keyIndex acc item = Normal acc' ->
  (Forall (fun kv => storable (snd kv)) (own acc) ->
   Forall (fun kv => storable (snd kv)) (own acc'))
  /\ (NoDup (map fst (own acc)) -> NoDup (map fst (own acc'))).
Proof.
  unfold entry_step.
  destruct ((keyIndex <? 0)%Z || (keyIndex >=? Z.of_nat (List.length item))%Z);
    [discriminate|].
  cbv zeta. destruct (to_property_key _) as [k|e]; [|discriminate].
  cbn [bind]. intros H. injection H as <-. unfold value_set.
  match goal with
  | |- context [obj_set _ _ acc k ?v] =>
      assert (Hv : storable v);
      [|destruct (obj_set_own value_as_prototype value_shadows_accessor acc k v) as [->| ->]]
  end.
  - destruct (1 <? _)%nat; [now left|].
    destruct (truthy _) eqn:T; [now left|now right].
  - tauto.
  - split; [now apply own_put_Forall|apply own_put_NoDup].
Qed.

Lemma reduce_entries_invariants (keyIndex : Z) (array : list (list jsval)) :
  forall acc o : object jsval,
    reduce_entries keyIndex acc array = Normal o ->
    (Forall (fun kv => storable (snd kv)) (own acc) ->
     Forall (fun kv => storable (snd kv)) (own o))
    /\ (NoDup (map fst (own acc)) -> NoDup (map fst (own o))).
Proof.
  induction array as [|item r IH]; intros acc o H.
  - injection H as <-. tauto.
  - cbn [reduce_entries] in H.
    destruct (entry_step keyIndex acc item) as [acc'|e] eqn:E; [|discriminate].
    cbn [bind] in H. destruct (entry_step_invariants _ _ _ _ E) as [H1 H2].
    destruct (IH _ _ H) as [H3 H4]. split; auto.
Qed.

(** X13: [_ArrayToObject] never stores a falsy value other than [null]:
    whatever the entries, a property of the result is truthy or [null], so
    [0], [''], [false], [NaN] and [undefined] do not come out of it. *)
Theorem ArrayToObject_stores_truthy_or_null :
  forall (array : list (list jsval)) (keyIndex : Z) (o : object jsval) (key : string)
         (v : jsval),
    _ArrayToObject array keyIndex = Normal o ->
    own_get key (own o) = Some v ->
    truthy v = true \/ v = null.
Proof.
  intros array keyIndex o key v H G. unfold _ArrayToObject in H.
  destruct (reduce_entries_invariants _ _ _ _ H) as [Hs _].
  specialize (Hs (Forall_nil _)). rewrite Forall_forall in Hs.
  exact (Hs _ (own_get_In _ _ _ G)).
Qed.

Lemma ArrayToObject_stores_truthy_or_null_witness :
  _ArrayToObject [[str "a"; boolean false]; [str "b"; num 20]] 0
  = Normal (mkObject [("a", null); ("b", num 20)] ObjectPrototype)
  /\ own_get "a" [("a", null); ("b", num 20)] = Some null
  /\ (truthy null = true \/ null = null).
Proof.
  assert (H : _ArrayToObject [[str "a"; boolean false]; [str "b"; num 20]] 0
              = Normal (mkObject [("a", null); ("b", num 20)] ObjectPrototype))
    by reflexivity.
  split; [exact H|]. split; [reflexivity|].
  exact (ArrayToObject_stores_truthy_or_null _ 0 _ "a" null H eq_refl).
Defined.

(** X14: the result holds each key once: an entry whose key is there
    already overwrites the property in place. *)
Theorem ArrayToObject_distinct_keys :
  forall (array : list (list jsval)) (keyIndex : Z) (o : object jsval),
    _ArrayToObject array keyIndex = Normal o ->
    NoDup (map fst (own o)).
Proof.
  intros array keyIndex o H. unfold _ArrayToObject in H.
  destruct (reduce_entries_invariants _ _ _ _ H) as [_ Hn].
  apply Hn. constructor.
Qed.

Lemma ArrayToObject_distinct_keys_witness :
  _ArrayToObject [[str "a"; num 10]; [str "b"; num 20]; [str "a"; num 30]] 0
  = Normal (mkObject [("a", num 30); ("b", num 20)] ObjectPrototype)
  /\ NoDup (map fst [("a", num 30); ("b", num 20)]).
Proof.
  assert (H : _ArrayToObject [[str "a"; num 10]; [str "b"; num 20]; [str "a"; num 30]] 0
              = Normal (mkObject [("a", num 30); ("b", num 20)] ObjectPrototype))
    by reflexivity.
  split; [exact H|].
  exact (ArrayToObject_distinct_keys _ 0 _ H).
Defined.

(** Inside the bounds, an entry whose key converts is stored. *)
Lemma entry_step_inside (keyIndex : Z) (acc : object jsval) (item : list jsval) :
  inside keyIndex item ->
  key_converts keyIndex item ->
  exists acc', entry_step keyIndex acc item = Normal acc'.
Proof.
  intros Hb Hk.
  destruct (entry_step_cases keyIndex acc item Hk) as [H|H]; [|exact H].
  exfalso. unfold entry_step in H. unfold inside in Hb.
  replace ((keyIndex <? 0)%Z || (keyIndex >=? Z.of_nat (List.length item))%Z)
    with false in H.
  - destruct Hk as [k Hk]. cbv zeta in H. fold (entry_key keyIndex item) in H.
    rewrite Hk in H. discriminate H.
  - symmetry. apply orb_false_iff. split.
    + apply Z.ltb_ge. lia.
    + rewrite Z.geb_leb. apply Z.leb_gt. lia.
Qed.

Lemma reduce_entries_inside (keyIndex : Z) (array : list (list jsval)) :
  forall acc : object jsval,
    Forall (inside keyIndex) array ->
    Forall (key_converts keyIndex) array ->
    exists o, reduce_entries keyIndex acc array = Normal o.
Proof.
  induction array as [|item r IH]; intros acc Hb Hk.
  - now exists acc.
  - inversion Hb; inversion Hk; subst. cbn [reduce_entries].
    destruct (entry_step_inside keyIndex acc item) as [acc' ->]; auto.
    cbn [bind]. now apply IH.
Qed.

(** X15: when the keys of the entries convert to property keys,
    [_ArrayToObject] returns an object exactly when the key index lies
    inside every entry; nothing else makes it fail. *)
Theorem ArrayToObject_succeeds_iff :
  forall (array : list (list jsval)) (keyIndex : Z),
    Forall (key_converts keyIndex) array ->
    ((exists o, _ArrayToObject array keyIndex = Normal o)
     <-> Forall (inside keyIndex) array).
Proof.
  intros array keyIndex Hk. unfold _ArrayToObject. split.
  - generalize (@empty_object jsval) as acc.
    induction array as [|item r IH]; intros acc [o H]; [constructor|].
    inversion Hk as [|? ? Hitem Hr]; subst. cbn [reduce_entries] in H.
    destruct (entry_step keyIndex acc item) as [acc'|e] eqn:E; [|discriminate].
    cbn [bind] in H. constructor; [|apply (IH Hr acc'); eauto].
    unfold inside.
    destruct (Z_lt_dec keyIndex 0) as [Hneg|Hpos];
      [|destruct (Z_le_dec (Z.of_nat (List.length item)) keyIndex) as [Hbig|Hsmall]].
    + rewrite entry_step_throws in E; [discriminate|now left].
    + rewrite entry_step_throws in E; [discriminate|now right].
    + lia.
  - intros Hb. now apply reduce_entries_inside.
Qed.

Lemma ArrayToObject_succeeds_iff_witness :
  Forall (key_converts 1) [[str "a"; num 10]; [str "b"; num 20]]
  /\ ((exists o, _ArrayToObject [[str "a"; num 10]; [str "b"; num 20]] 1 = Normal o)
      <-> Forall (inside 1) [[str "a"; num 10]; [str "b"; num 20]]).
Proof.
  assert (H : Forall (key_converts 1) [[str "a"; num 10]; [str "b"; num 20]])
    by (repeat constructor; eexists; reflexivity).
  split; [exact H|].
  exact (ArrayToObject_succeeds_iff _ 1 H).
Defined.

(** The documented mapping on the third test of the suite. *)
Lemma ArrayToObject_documented_witness :
  Forall (plain_entry 0) [[str "a"; num 10; str "x"]; [str "b"; num 20; str "y"]]
  /\ exists o,
      _ArrayToObject [[str "a"; num 10; str "x"]; [str "b"; num 20; str "y"]] 0 = Normal o
      /\ proto o = ObjectPrototype
      /\ forall key,
          own_get key (own o)
          = entry_match 0 key [[str "a"; num 10; str "x"]; [str "b"; num 20; str "y"]].
Proof.
  assert (H : Forall (plain_entry 0)
                [[str "a"; num 10; str "x"]; [str "b"; num 20; str "y"]]).
  { repeat constructor; try (simpl; lia); try discriminate.
    - exists "a". split; [reflexivity|discriminate].
    - exists "b". split; [reflexivity|discriminate]. }
  split; [exact H|].
  exact (ArrayToObject_documented _ 0 H).
Defined.

(** ** The round trip, continued *)

Lemma transform_documented_pairs (props : list (string * jsval)) :
  transform_documented (Obj props)
  = Arr (map (fun kv => Arr (pair_of (fst kv, transform_documented (snd kv)))) props).
Proof.
  cbn [transform_documented]. f_equal.
  induction props as [|[k v] r IH]; [reflexivity|].
  cbn [map]. now rewrite IH.
Qed.

(** X17: [_ObjectToArray] and [_ArrayToObject] compose on every object in
    which [transform] meets no [null]: what the first returns is an array
    of [[key, value]] pairs, on which the second, with key index [0], raises
    nothing and returns an object. *)
Theorem roundtrip_succeeds :
  forall props : list (string * jsval),
    null_free (Obj props) = true ->
    exists o, roundtrip (Obj props) = Some (Normal o).
Proof.
  intros props H. unfold roundtrip.
  rewrite (ObjectToArray_documented props H), transform_documented_pairs.
  set (g := fun kv : string * jsval => (fst kv, transform_documented (snd kv))).
  change (map (fun kv => Arr (pair_of (fst kv, transform_documented (snd kv)))) props)
    with (map (fun kv => Arr (pair_of (g kv))) props).
  rewrite <- (map_map g (fun kv => Arr (pair_of kv))), as_entries_pairs.
  destruct (reduce_entries_inside 0 (map pair_of (map g props)) empty_object)
    as [o Ho].
  - apply Forall_forall. intros item Hin. apply in_map_iff in Hin as (kv & <- & _).
    unfold inside, pair_of. cbn [List.length]. lia.
  - apply Forall_forall. intros item Hin. apply in_map_iff in Hin as (kv & <- & _).
    exists (fst kv). reflexivity.
  - exists o. unfold _ArrayToObject. now rewrite Ho.
Qed.

Lemma roundtrip_succeeds_witness :
  null_free (Obj [("a", Arr [null]); ("b", Obj [("c", num 0)])]) = true
  /\ exists o, roundtrip (Obj [("a", Arr [null]); ("b", Obj [("c", num 0)])])
               = Some (Normal o).
Proof.
  split; [reflexivity|].
  exact (roundtrip_succeeds [("a", Arr [null]); ("b", Obj [("c", num 0)])] eq_refl).
Defined.

(** The round trip of the documentation, through the lemma. *)
Lemma roundtrip_truthy_scalars_witness :
  well_listed [("a", num 10); ("b", num 20)]
  /\ Forall (fun kv => fst kv <> "__proto__") [("a", num 10); ("b", num 20)]
  /\ Forall (fun kv => truthy_scalar (snd kv)) [("a", num 10); ("b", num 20)]
  /\ roundtrip (Obj [("a", num 10); ("b", num 20)])
     = Some (Normal (mkObject [("a", num 10); ("b", num 20)] ObjectPrototype)).
Proof.
  assert (Hw : well_listed [("a", num 10); ("b", num 20)]).
  { apply (well_listed_snoc [("a", num 10)] "b" (num 20)).
    - apply (well_listed_snoc [] "a" (num 10)); [constructor|reflexivity|constructor].
    - reflexivity.
    - repeat constructor. }
  assert (Hk : Forall (fun kv => fst kv <> "__proto__") [("a", num 10); ("b", num 20)])
    by (repeat constructor; discriminate).
  assert (Hv : Forall (fun kv => truthy_scalar (snd kv)) [("a", num 10); ("b", num 20)])
    by (repeat constructor; eexists; split; reflexivity).
  split; [exact Hw|]. split; [exact Hk|]. split; [exact Hv|].
  exact (roundtrip_truthy_scalars _ Hw Hk Hv).
Defined.

(** ** [_forEachInObject] *)

Section ForEachProperties.
Context {St : Type}.
Implicit Types (callback : jsval -> string -> St -> completion jsval * St).

Lemma forEach_app (f : string -> St -> completion jsval * St) (a b : list string) :
  forall st,
    forEach f (a ++ b)%list st =
    match forEach f a st with
    | (Normal _, st') => forEach f b st'
    | (Throw e, st') => (Throw e, st')
    end.
Proof.
  induction a as [|k r IH]; intros st; [reflexivity|].
  change ((k :: r) ++ b)%list with (k :: (r ++ b))%list. cbn [forEach].
  destruct (f k st) as [[v|e] st']; [apply IH|reflexivity].
Qed.

(** The loop over properties that [obj] holds, with a callback that is
    quiet on them: every call is made, in order. *)
Lemma traced_quiet (obj : jsval) callback (props : list (string * jsval)) :
  Forall (fun kv => own_value obj (fst kv) = snd kv) props ->
  Forall (quiet callback) props ->
  forall st log,
  exists st',
    forEach (fun key => traced callback (own_value obj key) key) (map fst props) (st, log)
    = (Normal tt, (st', (log ++ calls_of props)%list)).
Proof.
  induction props as [|[k v] r IH]; intros Hv Hq st log.
  - exists st. cbn. now rewrite app_nil_r.
  - inversion Hv as [|? ? Hk Hr]; inversion Hq as [|? ? Hqk Hqr]; subst.
    cbn [fst snd] in Hk. cbn [map fst forEach]. rewrite Hk. unfold traced at 1.
    cbn [fst snd]. destruct (Hqk st) as (x & st1 & E). cbn [fst snd] in E.
    rewrite E. cbn [fst snd].
    destruct (IH Hr Hqr st1 (log ++ [(v, k)])%list) as (st' & ->).
    exists st'. cbn [calls_of map fst snd]. now rewrite <- app_assoc.
Qed.

Lemma traced_throwing (obj : jsval) callback (k : string) (v : jsval)
      (rest : list string) (st : St) (log : list (jsval * string)) :
  own_value obj k = v ->
  throwing callback (k, v) ->
  exists e st',
    forEach (fun key => traced callback (own_value obj key) key) (k :: rest) (st, log)
    = (Throw e, (st', (log ++ [(v, k)])%list)).
Proof.
  intros Hk Ht. cbn [forEach]. rewrite Hk. unfold traced. cbn [fst snd].
  destruct (Ht st) as (e & st' & E). cbn [fst snd] in E. rewrite E.
  now exists e, st'.
Qed.
End ForEachProperties.

(** A property of an object with distinct keys is read back by its key. *)
Lemma own_value_props (props : list (string * jsval)) :
  NoDup (map fst props) ->
  Forall (fun kv => own_value (Obj props) (fst kv) = snd kv) props.
Proof.
  intros Hn. apply Forall_forall. intros [k v] Hin. cbn [own_value fst snd].
  induction props as [|[k' v'] r IH]; [contradiction|].
  inversion Hn as [|? ? Hk' Hr]; subst. cbn [own_get].
  destruct Hin as [H|H].
  - injection H as -> ->. now rewrite String.eqb_refl.
  - destruct (k' =? k) eqn:E; [|now apply IH].
    apply String.eqb_eq in E. subst k'. elim Hk'.
    apply in_map_iff. now exists (k, v).
Qed.

(** X18: on an object, a callback that returns normally is called once
    for each own property, in the order of the enumeration, with the value
    first and the key second; [_forEachInObject] then returns normally. *)
Theorem forEachInObject_calls :
  forall (St : Type) (callback : jsval -> string -> St -> completion jsval * St)
         (props : list (string * jsval)) (st : St),
    NoDup (map fst props) ->
    Forall (quiet callback) props ->
    exists st',
      _forEachInObject (Obj props) (traced callback) (st, [])
      = (Normal tt, (st', calls_of props)).
Proof.
  intros St callback props st Hn Hq. unfold _forEachInObject. cbn [object_keys].
  exact (traced_quiet (Obj props) callback props (own_value_props props Hn) Hq st []).
Qed.

(** The test of the suite, with a callback that does nothing else. *)
Lemma forEachInObject_calls_witness :
  NoDup (map fst [("a", num 1); ("b", num 2); ("c", num 3)])
  /\ Forall (quiet (fun (_ : jsval) (_ : string) (st : unit) => (Normal undefined, st)))
       [("a", num 1); ("b", num 2); ("c", num 3)]
  /\ exists st',
      _forEachInObject (Obj [("a", num 1); ("b", num 2); ("c", num 3)])
        (traced (fun (_ : jsval) (_ : string) (st : unit) => (Normal undefined, st))) (tt, [])
      = (Normal tt, (st', [(num 1, "a"); (num 2, "b"); (num 3, "c")])).
Proof.
  assert (Hn : NoDup (map fst [("a", num 1); ("b", num 2); ("c", num 3)])).
  { repeat constructor; simpl; intuition discriminate. }
  assert (Hq : Forall (quiet (fun (_ : jsval) (_ : string) (st : unit) =>
                                (Normal undefined, st)))
                 [("a", num 1); ("b", num 2); ("c", num 3)]).
  { repeat constructor; intros st; now exists undefined, st. }
  split; [exact Hn|]. split; [exact Hq|].
  exact (forEachInObject_calls unit _ [("a", num 1); ("b", num 2); ("c", num 3)] tt Hn Hq).
Defined.

(** X19: the first exception of the callback ends the walk: the
    properties before it have been visited, the one that throws is the last
    call, the properties after it are not visited, and the exception is the
    outcome of [_forEachInObject]. *)
Theorem forEachInObject_stops_at_exception :
  forall (St : Type) (callback : jsval -> string -> St -> completion jsval * St)
         (pre : list (string * jsval)) (k : string) (v : jsval)
         (post : list (string * jsval)) (st : St),
    NoDup (map fst (pre ++ (k, v) :: post)%list) ->
    Forall (quiet callback) pre ->
    throwing callback (k, v) ->
    exists e st',
      _forEachInObject (Obj (pre ++ (k, v) :: post)%list) (traced callback) (st, [])
      = (Throw e, (st', calls_of (pre ++ [(k, v)])%list)).
Proof.
  intros St callback pre k v post st Hn Hq Ht.
  unfold _forEachInObject. cbn [object_keys].
  pose proof (own_value_props _ Hn) as Hv.
  apply Forall_app in Hv as [Hpre Hkv].
  inversion Hkv as [|? ? Hk _]; subst. cbn [fst snd] in Hk.
  rewrite map_app, forEach_app.
  destruct (traced_quiet _ callback pre Hpre Hq st []) as (st1 & ->).
  cbn [map fst].
  destruct (traced_throwing (Obj (pre ++ (k, v) :: post)%list) callback k v
              (map fst post) st1 ([] ++ calls_of pre)%list Hk Ht) as (e & st' & ->).
  exists e, st'. unfold calls_of. now rewrite map_app.
Qed.

Lemma forEachInObject_stops_at_exception_witness :
  NoDup (map fst ([("a", num 1)] ++ ("b", num 2) :: [("c", num 3)])%list)
  /\ exists e st',
      _forEachInObject (Obj ([("a", num 1)] ++ ("b", num 2) :: [("c", num 3)])%list)
        (traced (fun (_ : jsval) (key : string) (st : unit) =>
                   if key =? "b" then (Throw (Error "b"), st) else (Normal undefined, st)))
        (tt, [])
      = (Throw e, (st', [(num 1, "a"); (num 2, "b")])).
Proof.
  assert (Hn : NoDup (map fst ([("a", num 1)] ++ ("b", num 2) :: [("c", num 3)])%list)).
  { repeat constructor; simpl; intuition discriminate. }
  split; [exact Hn|].
  apply (forEachInObject_stops_at_exception unit
           (fun (_ : jsval) (key : string) (st : unit) =>
              if key =? "b" then (Throw (Error "b"), st) else (Normal undefined, st))
           [("a", num 1)] "b" (num 2) [("c", num 3)] tt Hn).
  - repeat constructor. intros st. now exists undefined, st.
  - intros st. now exists (Error "b"), st.
Defined.

(** The numeral of an index is the key of that index. *)
Lemma array_index_of_index (i : nat) :
  (N.of_nat i < 4294967295)%N ->
  array_index (index_to_string i) = Some (N.of_nat i).
Proof.
  intros Hi. unfold array_index, index_to_string.
  assert (Hn : N.to_uint (N.of_nat i) <> Nil).
  { pose proof (DecimalN.Unsigned.to_of (N.to_uint (N.of_nat i))) as H.
    rewrite DecimalN.Unsigned.of_to in H. rewrite H.
    apply DecimalFacts.unorm_nonnil. }
  rewrite (NilZero.usu _ Hn). cbv zeta.
  rewrite DecimalN.Unsigned.of_to, String.eqb_refl.
  change (2 ^ 32 - 1)%N with 4294967295%N.
  apply N.ltb_lt in Hi. now rewrite Hi.
Qed.

Lemma indexed_keys (items : list jsval) : forall i,
  map fst (indexed i items) = indices_from i items.
Proof.
  induction items as [|x r IH]; intros i; [reflexivity|].
  cbn [indexed indices_from map fst]. now rewrite IH.
Qed.

Lemma own_value_indexed (items suf : list jsval) : forall pre,
  items = (pre ++ suf)%list ->
  (N.of_nat (List.length items) <= 4294967295)%N ->
  Forall (fun kv => own_value (Arr items) (fst kv) = snd kv)
    (indexed (List.length pre) suf).
Proof.
  induction suf as [|x r IH]; intros pre E Hb; [constructor|].
  cbn [indexed]. constructor.
  - cbn [fst snd own_value].
    assert (Hi : (N.of_nat (List.length pre) < 4294967295)%N).
    { rewrite E, length_app in Hb. cbn [List.length] in Hb. lia. }
    rewrite (array_index_of_index _ Hi), Nat2N.id, E. apply nth_middle.
  - replace (S (List.length pre)) with (List.length (pre ++ [x])%list)
      by (rewrite length_app; cbn [List.length]; lia).
    apply IH; [now rewrite <- app_assoc|exact Hb].
Qed.

(** X20: on an array (of a length that arrays can have), the callback is
    called once for each element, in order, with the element first and its
    index second, the index being the decimal numeral, a string. *)
Theorem forEachInObject_array :
  forall (St : Type) (callback : jsval -> string -> St -> completion jsval * St)
         (items : list jsval) (st : St),
    (N.of_nat (List.length items) <= 4294967295)%N ->
    Forall (quiet callback) (indexed 0 items) ->
    exists st',
      _forEachInObject (Arr items) (traced callback) (st, [])
      = (Normal tt, (st', calls_of (indexed 0 items))).
Proof.
  intros St callback items st Hb Hq. unfold _forEachInObject. cbn [object_keys].
  rewrite <- indexed_keys.
  exact (traced_quiet (Arr items) callback (indexed 0 items)
           (own_value_indexed items items [] eq_refl Hb) Hq st []).
Qed.

Lemma forEachInObject_array_witness :
  (N.of_nat (List.length [str "x"; str "y"]) <= 4294967295)%N
  /\ exists st',
      _forEachInObject (Arr [str "x"; str "y"])
        (traced (fun (_ : jsval) (_ : string) (st : unit) => (Normal undefined, st))) (tt, [])
      = (Normal tt, (st', [(str "x", "0"); (str "y", "1")])).
Proof.
  assert (Hb : (N.of_nat (List.length [str "x"; str "y"]) <= 4294967295)%N)
    by (cbn; lia).
  split; [exact Hb|].
  apply (forEachInObject_array unit _ [str "x"; str "y"] tt Hb).
  repeat constructor; intros st; now exists undefined, st.
Defined.

(** ** [_createShellCommands] *)

Lemma funcs_set_plain (funcs : object jsval) (name : string) (cmd : jsval) :
  name <> "__proto__" ->
  funcs_set funcs name cmd = mkObject (own_put name cmd (own funcs)) (proto funcs).
Proof. intros H. unfold funcs_set. now apply obj_set_plain. Qed.

Lemma commands_forEach_plain (commands : list (list (string * jsval))) :
  forall funcs : object jsval,
    Forall plain_command commands ->
    exists result,
      commands_forEach funcs commands = Normal result
      /\ proto result = proto funcs
      /\ forall name,
          own_get name (own result) =
          match command_match name commands with
          | Some cmd => Some cmd
          | None => own_get name (own funcs)
          end.
Proof.
  induction commands as [|commandPair r IH]; intros funcs H.
  - exists funcs. simpl. auto.
  - inversion H as [|? ? Hc Hr]; subst.
    destruct commandPair as [|[n cmd] more]; [contradiction|]. cbn in Hc.
    cbn [commands_forEach command_step bind]. rewrite (funcs_set_plain _ _ _ Hc).
    destruct (IH (mkObject (own_put n cmd (own funcs)) (proto funcs)) Hr)
      as (result & Hres & Hproto & Hget).
    exists result. split; [exact Hres|]. split; [exact Hproto|].
    intros name. rewrite Hget. cbn [command_match own].
    destruct (command_match name r); [reflexivity|].
    rewrite own_get_put. destruct (n =? name); reflexivity.
Qed.

(** X21: for mappings that each have a first entry, named otherwise than
    [__proto__], [_createShellCommands] returns an object that holds, under
    each name, the function of the last mapping of that name (a later
    mapping replaces an earlier one), and nothing under any other name. *)
Theorem createShellCommands_last_wins :
  forall commands : list (list (string * jsval)),
    Forall plain_command commands ->
    exists funcs,
      _createShellCommands commands = Normal funcs
      /\ proto funcs = ObjectPrototype
      /\ forall name, own_get name (own funcs) = command_match name commands.
Proof.
  intros commands H. unfold _createShellCommands.
  destruct (commands_forEach_plain commands empty_object H) as (funcs & Hf & Hp & Hg).
  exists funcs. split; [exact Hf|]. split; [exact Hp|].
  intros name. rewrite Hg. now destruct (command_match name commands).
Qed.

Lemma createShellCommands_last_wins_witness :
  Forall plain_command
    [[("pull", str "git pull")]; [("status", str "git status")];
     [("pull", str "git pull --rebase")]]
  /\ exists funcs,
      _createShellCommands
        [[("pull", str "git pull")]; [("status", str "git status")];
         [("pull", str "git pull --rebase")]] = Normal funcs
      /\ proto funcs = ObjectPrototype
      /\ forall name,
          own_get name (own funcs)
          = command_match name
              [[("pull", str "git pull")]; [("status", str "git status")];
               [("pull", str "git pull --rebase")]].
Proof.
  assert (H : Forall plain_command
                [[("pull", str "git pull")]; [("status", str "git status")];
                 [("pull", str "git pull --rebase")]])
    by (repeat constructor; discriminate).
  split; [exact H|].
  exact (createShellCommands_last_wins _ H).
Defined.

(** X22: only the first entry of each mapping counts: the entries that
    follow it change nothing. *)
Theorem createShellCommands_first_entry_only :
  forall commands : list (list (string * jsval)),
    _createShellCommands commands = _createShellCommands (map (firstn 1) commands).
Proof.
  intros commands. unfold _createShellCommands.
  generalize (@empty_object jsval) as funcs.
  induction commands as [|commandPair r IH]; intros funcs; [reflexivity|].
  cbn [map commands_forEach].
  assert (E : command_step funcs (firstn 1 commandPair) = command_step funcs commandPair)
    by now destruct commandPair as [|[n cmd] more].
  rewrite E. destruct (command_step funcs commandPair); cbn [bind]; [apply IH|reflexivity].
Qed.

(** X23: a mapping without any entry makes the whole call raise a
    [TypeError]: no object is returned, not even for the mappings before
    it. *)
Theorem createShellCommands_empty_mapping :
  forall commands : list (list (string * jsval)),
    In [] commands ->
    _createShellCommands commands = Throw TypeError.
Proof.
  intros commands. unfold _createShellCommands.
  generalize (@empty_object jsval) as funcs.
  induction commands as [|commandPair r IH]; intros funcs Hin; [contradiction|].
  cbn [commands_forEach].
  destruct commandPair as [|[n cmd] more]; [reflexivity|].
  cbn [command_step bind]. apply IH.
  destruct Hin as [H|H]; [discriminate|exact H].
Qed.

Lemma createShellCommands_empty_mapping_witness :
  In [] [[("pull", str "git pull")]; []]
  /\ _createShellCommands [[("pull", str "git pull")]; []] = Throw TypeError.
Proof.
  assert (H : In (A := list (string * jsval)) [] [[("pull", str "git pull")]; []])
    by (right; left; reflexivity).
  split; [exact H|].
  exact (createShellCommands_empty_mapping _ H).
Defined.

(** ** [_FiletoJson] *)

(** X24: options whose [encoding] and [flag] are absent or falsy (an
    empty object, [{encoding: ''}], a number, ...) read the file as when the
    options are omitted: with the encoding ['utf-8'] and the flag ['']; the
    outcome is the same, whatever the file system, the parser and the
    process function. *)
Theorem FiletoJson_default_options :
  forall (readFileSync : string -> jsval -> jsval -> completion string)
         (JSON_parse : string -> completion jsval) (R : Type)
         (path : string) (options : jsval)
         (processFunction : option (jsval -> completion R)),
    unset options "encoding" ->
    unset options "flag" ->
    _FiletoJson readFileSync JSON_parse path options processFunction
    = _FiletoJson readFileSync JSON_parse path undefined processFunction.
Proof.
  intros readFileSync JSON_parse R path options processFunction
         (e & He & Te) (f & Hf & Tf).
  unfold _FiletoJson.
  assert (E : forall name v,
             get_option options name = Normal v ->
             get_option (match options with Prim Undefined => Obj [] | _ => options end)
               name = Normal v)
    by (intros name v; destruct options as [[| | | |]| |]; auto).
  rewrite (E _ _ He), (E _ _ Hf). cbn [bind get_option own_get undefined].
  unfold or_else. rewrite Te, Tf. reflexivity.
Qed.

Lemma FiletoJson_default_options_witness :
  unset (Obj [("encoding", str "")]) "encoding"
  /\ unset (Obj [("encoding", str "")]) "flag"
  /\ _FiletoJson (fun _ encoding _ => Normal (to_string_or encoding))
       (fun data => Normal (str data)) "file.json" (Obj [("encoding", str "")])
       (None : option (jsval -> completion unit))
     = Normal (Parsed (str "utf-8")).
Proof.
  assert (He : unset (Obj [("encoding", str "")]) "encoding")
    by (exists (str ""); split; reflexivity).
  assert (Hf : unset (Obj [("encoding", str "")]) "flag")
    by (exists undefined; split; reflexivity).
  split; [exact He|]. split; [exact Hf|].
  rewrite (FiletoJson_default_options _ _ unit "file.json" _ None He Hf).
  reflexivity.
Defined.

